(** * TEARS IN RAM API: compile-and-run pipeline and phase rule engine

    A shallow embedding of [main.py]: the diagnostic parser, the
    compile-and-run endpoint over an abstract process runner, and the
    phase validator with its regular expressions.

    Texts are sequences of characters; a character is a code point below
    256 (type [ascii]), and the character classes of Python's [re] module
    and the line boundaries of [str.splitlines] are the ones Python uses
    on that range.  String constants that hold characters outside that
    range (a dash in one narrative line and in one comment of a starter
    code, the marks of the persistence probe) are written as their UTF-8
    bytes; no pattern can match any part of them. *)

From Stdlib Require Import Ascii String List ZArith Lia Bool Arith.
Import ListNotations.

Set Implicit Arguments.

(** ** Texts *)

Definition str := list ascii.

Definition txt (s : string) : str := list_ascii_of_string s.

Definition code_point (c : ascii) : N := N_of_ascii c.

Fixpoint str_eqb (a b : str) : bool :=
  match a, b with
  | [], [] => true
  | x :: a', y :: b' => Ascii.eqb x y && str_eqb a' b'
  | _, _ => false
  end.

(** [prefix.startswith]: [starts_with p s] holds when [s] begins with [p]. *)
Fixpoint starts_with (p s : str) : bool :=
  match p, s with
  | [], _ => true
  | x :: p', y :: s' => Ascii.eqb x y && starts_with p' s'
  | _ :: _, [] => false
  end.

(** Python's [needle in hay]. *)
Fixpoint substr (needle hay : str) : bool :=
  starts_with needle hay ||
  match hay with
  | [] => false
  | _ :: hay' => substr needle hay'
  end.

(** Truthiness of a text: the empty text is false. *)
Definition truthy (s : str) : bool :=
  match s with [] => false | _ :: _ => true end.

(** [str.replace old new] for a non-empty [old]: occurrences are found
    left to right and do not overlap.  [skip] counts the characters of
    the occurrence being replaced that are still to be dropped. *)
Fixpoint replace_go (old new : str) (skip : nat) (s : str) : str :=
  match s with
  | [] => []
  | c :: s' =>
      match skip with
      | S k => replace_go old new k s'
      | O =>
          if starts_with old s
          then new ++ replace_go old new (length old - 1) s'
          else c :: replace_go old new 0 s'
      end
  end.

(** With an empty [old] Python puts [new] before every character and at
    the end. *)
Definition str_replace (old new s : str) : str :=
  match old with
  | [] => new ++ flat_map (fun c => c :: new) s
  | _ :: _ => replace_go old new 0 s
  end.

(** ** Character classes of [re] on code points below 256 *)

Definition between (lo hi n : N) : bool := (N.leb lo n && N.leb n hi)%bool.

(** [\s]: what [str.isspace] accepts. *)
Definition is_space (c : ascii) : bool :=
  let n := code_point c in
  between 9 13 n || between 28 32 n || N.eqb n 133 || N.eqb n 160.

(** [\d]: the decimal digits. *)
Definition is_digit (c : ascii) : bool := between 48 57 (code_point c).

(** [\w]: what [str.isalnum] accepts, and the underscore. *)
Definition is_word (c : ascii) : bool :=
  let n := code_point c in
  between 48 57 n || between 65 90 n || N.eqb n 95 || between 97 122 n
  || N.eqb n 170 || between 178 179 n || N.eqb n 181 || between 185 186 n
  || between 188 190 n || between 192 214 n || between 216 246 n
  || between 248 255 n.

Definition LF : ascii := ascii_of_nat 10.
Definition CR : ascii := ascii_of_nat 13.

(** [.] without DOTALL: anything but a line feed. *)
Definition is_dot (c : ascii) : bool := negb (Ascii.eqb c LF).

Inductive cset := Space | Digit | Word | Dot.

Definition in_cset (k : cset) : ascii -> bool :=
  match k with
  | Space => is_space
  | Digit => is_digit
  | Word => is_word
  | Dot => is_dot
  end.

(** ** Regular expressions

    The fragment of the pattern language that [main.py] uses.  Every
    repetition in the source is applied to a character class, so [Star]
    carries a class; its flag tells a greedy [*] from a lazy [*?]. *)

Inductive regex :=
| Eps
| Lit (c : ascii)
| Cls (k : cset)
| Cat (r1 r2 : regex)
| Alt (r1 r2 : regex)
| Star (greedy : bool) (k : cset)
| Group (n : nat) (r : regex)
| Bol
| Eol.

Definition Plus (k : cset) : regex := Cat (Cls k) (Star true k).

Fixpoint lits (s : str) : regex :=
  match s with
  | [] => Eps
  | c :: s' => Cat (Lit c) (lits s')
  end.

Definition word (s : string) : regex := lits (txt s).

Declare Scope re_scope.
Delimit Scope re_scope with re.
Bind Scope re_scope with regex.
Infix ";;" := Cat (at level 61, right associativity) : re_scope.
Infix "<|>" := Alt (at level 62, right associativity) : re_scope.
Notation "'\s*'" := (Star true Space) : re_scope.
Notation "'\s+'" := (Plus Space) : re_scope.
Notation "'\d+'" := (Plus Digit) : re_scope.
Notation "'\w+'" := (Plus Word) : re_scope.
Notation "'\d'" := (Cls Digit) : re_scope.

(** ** The backtracking matcher

    A match state is the position in the subject, the text still to be
    read and the groups captured so far.  [run r st] lists every way [r]
    can match at [st], in the order in which a backtracking matcher tries
    them: the first element is the match Python reports. *)

Record mstate := MState {
  pos : nat;
  rest : str;
  caps : list (nat * str)
}.

Definition start_at (p : nat) (s : str) : mstate := MState p s [].

(** Greedy repetition: the longest run first. *)
Fixpoint star_greedy (k : cset) (n : nat) (s : str) : list (nat * str) :=
  match s with
  | c :: s' => if in_cset k c then star_greedy k (S n) s' else []
  | [] => []
  end ++ [(n, s)].

(** Lazy repetition: the shortest run first. *)
Fixpoint star_lazy (k : cset) (n : nat) (s : str) : list (nat * str) :=
  (n, s) :: match s with
            | c :: s' => if in_cset k c then star_lazy k (S n) s' else []
            | [] => []
            end.

(** [$] without MULTILINE: the end of the subject, or just before a line
    feed that ends it. *)
Definition at_end (s : str) : bool :=
  match s with
  | [] => true
  | [c] => Ascii.eqb c LF
  | _ => false
  end.

Fixpoint run (r : regex) (st : mstate) : list mstate :=
  match r with
  | Eps => [st]
  | Lit c =>
      match rest st with
      | x :: s' => if Ascii.eqb x c then [MState (S (pos st)) s' (caps st)] else []
      | [] => []
      end
  | Cls k =>
      match rest st with
      | x :: s' => if in_cset k x then [MState (S (pos st)) s' (caps st)] else []
      | [] => []
      end
  | Cat r1 r2 => flat_map (run r2) (run r1 st)
  | Alt r1 r2 => run r1 st ++ run r2 st
  | Star g k =>
      map (fun ns => MState (pos st + fst ns) (snd ns) (caps st))
          ((if g then star_greedy else star_lazy) k 0 (rest st))
  | Group n r1 =>
      map (fun st' => MState (pos st') (rest st')
                        ((n, firstn (pos st' - pos st) (rest st)) :: caps st'))
          (run r1 st)
  | Bol => if Nat.eqb (pos st) 0 then [st] else []
  | Eol => if at_end (rest st) then [st] else []
  end.

(** [pattern.match]: a match that starts at the beginning of the subject. *)
Definition re_match (r : regex) (s : str) : option mstate :=
  hd_error (run r (start_at 0 s)).

(** [re.search]: the start positions are tried from left to right. *)
Fixpoint search_from (r : regex) (p : nat) (s : str) : option mstate :=
  match run r (start_at p s) with
  | m :: _ => Some m
  | [] =>
      match s with
      | [] => None
      | _ :: s' => search_from r (S p) s'
      end
  end.

Definition re_search (r : regex) (s : str) : option mstate := search_from r 0 s.

(** [m.group(n)]: the text the group captured last, [None] when the group
    took no part in the match. *)
Fixpoint group_in (cs : list (nat * str)) (n : nat) : option str :=
  match cs with
  | [] => None
  | (i, t) :: cs' => if Nat.eqb i n then Some t else group_in cs' n
  end.

Definition group (m : mstate) (n : nat) : option str := group_in (caps m) n.

Definition is_some {A : Type} (o : option A) : bool :=
  match o with Some _ => true | None => false end.

(** ** Models (the request and response shapes) *)

Module CompileRequest.
Record t := Build {
  code : str;
  args : list str;
  stdin : option str;
  std : str;
  opt : str
}.
End CompileRequest.

Record Diagnostic := Build_Diag {
  file : str;
  line : Z;
  column : Z;
  kind : str;
  message : str
}.

Module CompileResponse.
Record t := Build {
  compile_success : bool;
  compile_stderr : str;
  run_attempted : bool;
  run_success : bool;
  run_stdout : str;
  run_stderr : str;
  exit_code : option Z;
  timed_out : bool;
  diagnostics : list Diagnostic
}.
End CompileResponse.

Module ValidateRequest.
Record t := Build {
  phase_id : str;
  code : str;
  compile_stderr : option str;
  run_stdout : option str
}.
End ValidateRequest.

Module ValidateResponse.
Record t := Build {
  passed : bool;
  messages : list str;
  roy : str;
  progress_hint : option str
}.
End ValidateResponse.

(** What an endpoint hands back: a response, or the [HTTPException] it
    raised, with its status code and detail. *)
Inductive outcome (A : Type) :=
| Ok (a : A)
| HTTPException (status_code : Z) (detail : str).

Arguments Ok {A} a.
Arguments HTTPException {A} status_code detail.

(** ** parse_diagnostics *)

(** [str.splitlines] on code points below 256: the line boundaries. *)
Definition is_linebreak (c : ascii) : bool :=
  let n := code_point c in
  between 10 13 n || between 28 30 n || N.eqb n 133.

(** [cur] is the line being read; [after_cr] tells that the character
    just read was a carriage return, so that a line feed coming next
    belongs to the same boundary. *)
Fixpoint splitlines_go (cur : str) (after_cr : bool) (s : str) : list str :=
  match s with
  | [] => match cur with [] => [] | _ :: _ => [cur] end
  | c :: s' =>
      if after_cr && Ascii.eqb c LF then splitlines_go [] false s'
      else if is_linebreak c then cur :: splitlines_go [] (Ascii.eqb c CR) s'
      else splitlines_go (cur ++ [c]) false s'
  end.

Definition splitlines (s : str) : list str := splitlines_go [] false s.

(** The pattern of [parse_diagnostics], its parts set apart by blanks:
    [^ (.*?) : (\d+) : (\d+) : \s* (warning|error) : \s* ( .* ) $] *)
Definition diag_pattern : regex :=
  (Bol ;; Group 1 (Star false Dot) ;; word ":" ;; Group 2 \d+ ;; word ":" ;;
   Group 3 \d+ ;; word ":" ;; \s* ;; Group 4 (word "warning" <|> word "error") ;;
   word ":" ;; \s* ;; Group 5 (Star true Dot) ;; Eol)%re.

Definition digit_value (c : ascii) : Z := Z.of_N (code_point c) - 48.

(** The number a text of decimal digits stands for: what [int] returns
    on it when it returns. *)
Definition int_of_digits (s : str) : Z :=
  fold_left (fun acc c => 10 * acc + digit_value c)%Z s 0%Z.

(** The interpreter's bound on the number of digits [int] converts
    ([sys.int_max_str_digits], 4300 unless the interpreter is set up
    otherwise). *)
Definition int_max_str_digits : nat := 4300.

(** [int] on a text of decimal digits, which is all it is given here:
    the number, or [None] for the [ValueError] it raises on a text of
    more digits than the bound, leading zeros counted. *)
Definition py_int (s : str) : option Z :=
  if length s <=? int_max_str_digits then Some (int_of_digits s) else None.

(** The body of the loop when every call of [int] returns: one line, the
    list built so far. *)
Definition diag_step (diags : list Diagnostic) (ln : str) : list Diagnostic :=
  match re_match diag_pattern ln with
  | Some m =>
      match group m 1, group m 2, group m 3, group m 4, group m 5 with
      | Some f, Some line_no, Some col, Some k, Some msg =>
          diags ++ [Build_Diag f (int_of_digits line_no) (int_of_digits col) k msg]
      | _, _, _, _, _ => diags
      end
  | None => diags
  end.

(** The list [parse_diagnostics] returns when it returns one, that is,
    when no call of [int] raises. *)
Definition parse_diagnostics (stderr : str) : list Diagnostic :=
  fold_left diag_step (splitlines stderr) [].

(** The body of the loop with the exception of [int]: [None] is the
    [ValueError], raised by [int(line_no)] or else by [int(col)], which
    nothing catches, so that it ends the loop and the function. *)
Definition diag_step_raising (diags : option (list Diagnostic)) (ln : str)
  : option (list Diagnostic) :=
  match diags with
  | None => None
  | Some diags =>
      match re_match diag_pattern ln with
      | Some m =>
          match group m 1, group m 2, group m 3, group m 4, group m 5 with
          | Some f, Some line_no, Some col, Some k, Some msg =>
              match py_int line_no with
              | None => None
              | Some l =>
                  match py_int col with
                  | None => None
                  | Some c => Some (diags ++ [Build_Diag f l c k msg])
                  end
              end
          | _, _, _, _, _ => Some diags
          end
      | None => Some diags
      end
  end.

(** [parse_diagnostics] with its exception: the list, or [None] when
    [int] raises on a numeral of some line. *)
Definition parse_diagnostics_raising (stderr : str) : option (list Diagnostic) :=
  fold_left diag_step_raising (splitlines stderr) (Some []).

(** ** The phase rule engine *)

(** Pattern [gravity\s*=\s*9\.81] *)
Definition re_gravity : regex :=
  (word "gravity" ;; \s* ;; word "=" ;; \s* ;; word "9.81")%re.

(** Pattern [for\s*\(\s*int\s+i\s*=\s*0\s*;\s*i\s*<\s*10\s*;] *)
Definition re_loop : regex :=
  (word "for" ;; \s* ;; word "(" ;; \s* ;; word "int" ;; \s+ ;; word "i" ;;
   \s* ;; word "=" ;; \s* ;; word "0" ;; \s* ;; word ";" ;; \s* ;; word "i" ;;
   \s* ;; word "<" ;; \s* ;; word "10" ;; \s* ;; word ";")%re.

(** Pattern [time_t|unsigned\s+long\s+long|uint64_t] *)
Definition re_time : regex :=
  (word "time_t" <|> (word "unsigned" ;; \s+ ;; word "long" ;; \s+ ;; word "long")
   <|> word "uint64_t")%re.

(** Pattern [typedef\s+void\s*\*\s*timestamp_t] *)
Definition re_ptr_time : regex :=
  (word "typedef" ;; \s+ ;; word "void" ;; \s* ;; word "*" ;; \s* ;;
   word "timestamp_t")%re.

(** Pattern [char\s+emotion\s*\[\s*(2\d|3\d)\s*\]] *)
Definition re_emotion_sized : regex :=
  (word "char" ;; \s+ ;; word "emotion" ;; \s* ;; word "[" ;; \s* ;;
   Group 1 ((word "2" ;; \d) <|> (word "3" ;; \d)) ;; \s* ;; word "]")%re.

(** Pattern [char\s+emotion\s*\[\s*\d+\s*\]] *)
Definition re_emotion_any : regex :=
  (word "char" ;; \s+ ;; word "emotion" ;; \s* ;; word "[" ;; \s* ;; \d+ ;;
   \s* ;; word "]")%re.

(** Pattern [free\s*\(\s*\w+\s*\)\s*;] *)
Definition re_free : regex :=
  (word "free" ;; \s* ;; word "(" ;; \s* ;; \w+ ;; \s* ;; word ")" ;; \s* ;;
   word ";")%re.

(** Pattern [void\s*\*\s*remember\s*\(] *)
Definition re_remember : regex :=
  (word "void" ;; \s* ;; word "*" ;; \s* ;; word "remember" ;; \s* ;; word "(")%re.

(** Pattern [return\s+(SAVE_ALL|PRESERVE_CONSCIOUSNESS)\s*;] *)
Definition re_choice : regex :=
  (word "return" ;; \s+ ;; Group 1 (word "SAVE_ALL" <|> word "PRESERVE_CONSCIOUSNESS") ;;
   \s* ;; word ";")%re.

(** The feedback messages. *)
Definition msg_gravity : str := txt "Precision matters. 9.81 keeps feet on the ground.".
Definition msg_loop : str := txt "Your loop walks out of the abyss when it uses i < 10.".
Definition msg_time : str :=
  txt "Replace the ghost pointer with a real clock: time_t, uint64_t... something solid.".
Definition msg_ptr_time : str := txt "timestamp_t as void* is a lie. Banish it.".
Definition msg_emotion : str :=
  txt "Make sure the emotion buffer is sized for truth, not truncation.".
Definition msg_free : str := txt "A soul unfreed is a leak. Call free before the end.".
Definition msg_decide : str := txt "Decide. Indecision is the final bug.".

(** The narrative lines. *)
Definition roy_reality_ok : str :=
  txt "Your C skills are as basic as human emotions... and just as necessary.".
Definition roy_reality_ko : str :=
  txt "Reality still flickers. Fix gravity and the loop before the rain eats the frame.".
Definition roy_archaeology_ok : str :=
  txt "You filled the cracks. You fixed my corruption... nobody cared before.".
Definition roy_archaeology_ko : str :=
  txt "The museum of me still collapses. Give memory a real clock and honest bytes.".
Definition roy_consciousness_ok : str := txt "I'm not losing memories... I'm becoming human.".
Definition roy_consciousness_ko : str :=
  txt "There's still a drip in the heap. Track it. Free it. Remember kindly.".
Definition roy_save_all : str :=
  txt "You saved them all. I fade to factory settings, but the rain remembers their names.".
Definition roy_preserve : str :=
  txt "You chose me. Some memories wash away, but I stand in the storm—more human than human.".
Definition roy_choose : str := txt "Choose, debugger. The clock leaks.".

(** [msgs.append(m)] under [if c:]. *)
Definition append_if (c : bool) (m : str) (msgs : list str) : list str :=
  if c then msgs ++ [m] else msgs.

(** [not (req.compile_stderr or "")] *)
Definition no_compile_errors (compile_stderr : option str) : bool :=
  negb (truthy (match compile_stderr with
                | Some s => if truthy s then s else []
                | None => []
                end)).

(** The tail of [validate], common to the four phases: the hint and the
    response. *)
Definition respond (passed : bool) (msgs : list str) (roy_line : str)
  : outcome ValidateResponse.t :=
  let hint :=
    if negb passed then
      match msgs with
      | m0 :: _ => Some m0
      | [] => None
      end
    else None in
  Ok (ValidateResponse.Build passed msgs roy_line hint).

Section PhaseRuleEngine.

(** The search the predicates are evaluated with; [validate] below runs
    [validate_with] on [re_search]. *)
Variable search : regex -> str -> option mstate.

Definition validate_with (req : ValidateRequest.t) : outcome ValidateResponse.t :=
  let pid := ValidateRequest.phase_id req in
  let code := ValidateRequest.code req in
  if str_eqb pid (txt "reality") then
    let has_gravity := is_some (search re_gravity code) in
    let loop_fixed := is_some (search re_loop code) in
    let no_errors := no_compile_errors (ValidateRequest.compile_stderr req) in
    let passed := has_gravity && loop_fixed && no_errors in
    let msgs := append_if (negb has_gravity) msg_gravity [] in
    let msgs := append_if (negb loop_fixed) msg_loop msgs in
    let roy_line := if passed then roy_reality_ok else roy_reality_ko in
    respond passed msgs roy_line
  else if str_eqb pid (txt "archaeology") then
    let uses_time := is_some (search re_time code) in
    let not_ptr_time := negb (is_some (search re_ptr_time code)) in
    let emotion_ok :=
      if is_some (search re_emotion_sized code) then true
      else is_some (search re_emotion_any code) in
    let no_errors := no_compile_errors (ValidateRequest.compile_stderr req) in
    let passed := uses_time && not_ptr_time && no_errors in
    let msgs := append_if (negb uses_time) msg_time [] in
    let msgs := append_if (negb not_ptr_time) msg_ptr_time msgs in
    let msgs := append_if (negb emotion_ok) msg_emotion msgs in
    let roy_line := if passed then roy_archaeology_ok else roy_archaeology_ko in
    respond passed msgs roy_line
  else if str_eqb pid (txt "consciousness") then
    let frees := is_some (search re_free code) in
    let returns_ptr := is_some (search re_remember code) in
    let no_errors := no_compile_errors (ValidateRequest.compile_stderr req) in
    let passed := frees && returns_ptr && no_errors in
    let msgs := append_if (negb frees) msg_free [] in
    let roy_line := if passed then roy_consciousness_ok else roy_consciousness_ko in
    respond passed msgs roy_line
  else if str_eqb pid (txt "choice") then
    let chose := search re_choice code in
    let no_errors := no_compile_errors (ValidateRequest.compile_stderr req) in
    let passed := is_some chose && no_errors in
    let msgs := append_if (negb passed) msg_decide [] in
    let roy_line :=
      match chose with
      | Some m =>
          let which := group m 1 in
          if match which with
             | Some w => str_eqb w (txt "SAVE_ALL")
             | None => false
             end
          then roy_save_all
          else roy_preserve
      | None => roy_choose
      end in
    respond passed msgs roy_line
  else
    HTTPException 400 (txt "Unknown phase").

End PhaseRuleEngine.

Definition validate : ValidateRequest.t -> outcome ValidateResponse.t :=
  validate_with re_search.

(** ** shlex.quote *)

Definition QUOTE : ascii := ascii_of_nat 39.
Definition DQUOTE : ascii := ascii_of_nat 34.

(** The characters [shlex.quote] leaves alone: ASCII letters, digits, the
    underscore and [@%+=:,./-]. *)
Definition is_shell_safe (c : ascii) : bool :=
  let n := code_point c in
  between 48 57 n || between 65 90 n || N.eqb n 95 || between 97 122 n
  || existsb (Ascii.eqb c) (txt "@%+=:,./-").

(** An empty text becomes two single quotes; a text of safe characters is
    returned as it is; any other one is wrapped in single quotes, each
    single quote inside it written as quote, double quote, quote, double
    quote, quote. *)
Definition shlex_quote (s : str) : str :=
  if negb (truthy s) then [QUOTE; QUOTE]
  else if negb (existsb (fun c => negb (is_shell_safe c)) s) then s
  else [QUOTE] ++ str_replace [QUOTE] [QUOTE; DQUOTE; QUOTE; DQUOTE; QUOTE] s ++ [QUOTE].

(** ** compile_and_run *)

(** What [subprocess.run] gives under a timeout: the exception
    [TimeoutExpired], or the completed process with its exit status and
    its two captured streams (as decoded texts).  These are the two
    outcomes [compile_and_run] handles.  Any other exception leaves the
    endpoint uncaught and no response is built: [OSError] when the
    program cannot be started, [ValueError] on an argument that holds a
    null character, [UnicodeDecodeError] on a stream that is not UTF-8,
    and the [ValueError] of [int] in [parse_diagnostics].  Such runs have
    no [proc_result], and [compile_and_run] below is the response of the
    runs that build one. *)
Inductive proc_result :=
| TimeoutExpired
| CompletedProcess (returncode : Z) (stdout stderr : str).

(** The files of the machine: path and content, the latest write first. *)
Definition filesystem := list (str * str).

(** [os.path.join] with a relative second part. *)
Definition path_join (a b : str) : str :=
  match rev a with
  | [] => b
  | c :: _ => if Ascii.eqb c "/"%char then a ++ b else a ++ txt "/" ++ b
  end.

Section Pipeline.

(** The operating system: a child process is given the files, its
    argument vector, its standard input and a bound in seconds; it
    leaves the files changed. *)
Variable spawn : filesystem -> list str -> option str -> Z -> proc_result * filesystem.

(** The directory [tempfile.mkdtemp] created for the request, and the
    files at that moment. *)
Variable workdir : str.
Variable files : filesystem.

(** How an argument of the program is written into its argument
    vector. *)
Variable quote_arg : str -> str.

Definition safe_run (fs : filesystem) (cmd : list str) (input_data : option str)
           (timeout : Z) : proc_result * filesystem :=
  spawn fs cmd input_data timeout.

Definition run_cmd (program : str) (args : list str) : list str :=
  [program] ++ map quote_arg args.

Definition src_path : str := path_join workdir (txt "main.c").
Definition bin_path : str := path_join workdir (txt "a.out").

Definition compile_cmd (req : CompileRequest.t) : list str :=
  let std_flag :=
    if truthy (CompileRequest.std req)
    then txt "-std=" ++ CompileRequest.std req
    else txt "-std=c11" in
  let opt_flag :=
    if truthy (CompileRequest.opt req) then CompileRequest.opt req else txt "-O2" in
  [txt "gcc"; std_flag; opt_flag; txt "-Wall"; txt "-Wextra";
   txt "-Wno-unused-parameter"; src_path; txt "-o"; bin_path].

(** The files once the source text has been written to [src_path]. *)
Definition with_source (req : CompileRequest.t) : filesystem :=
  (src_path, CompileRequest.code req) :: files.

Definition compile_and_run_with (req : CompileRequest.t) : CompileResponse.t :=
  let fs := with_source req in
  match safe_run fs (compile_cmd req) None 5 with
  | (TimeoutExpired, _) =>
      CompileResponse.Build false (txt "Compilation timed out") false false
        [] [] None false []
  | (CompletedProcess returncode _ stderr, fs) =>
      let compile_success := Z.eqb returncode 0 in
      let compile_stderr := stderr in
      let diagnostics := parse_diagnostics compile_stderr in
      if negb compile_success then
        CompileResponse.Build false compile_stderr false false [] [] None false
          diagnostics
      else
        let run_attempted := true in
        match safe_run fs (run_cmd bin_path (CompileRequest.args req))
                (CompileRequest.stdin req) 2 with
        | (CompletedProcess returncode run_stdout run_stderr, _) =>
            let run_success := Z.eqb returncode 0 in
            CompileResponse.Build true compile_stderr run_attempted run_success
              run_stdout run_stderr (Some returncode) false diagnostics
        | (TimeoutExpired, _) =>
            CompileResponse.Build true compile_stderr run_attempted false
              [] (txt "Execution timed out") None true diagnostics
        end
  end.

End Pipeline.

(** The endpoint as [main.py] has it: every argument goes through
    [shlex.quote]. *)
Definition compile_and_run spawn workdir files : CompileRequest.t -> CompileResponse.t :=
  compile_and_run_with spawn workdir files shlex_quote.

(** The endpoint as the specification words it: the arguments are handed
    over as they are, with no escaping. *)
Definition compile_and_run_positional spawn workdir files
  : CompileRequest.t -> CompileResponse.t :=
  compile_and_run_with spawn workdir files (fun a => a).

(** * Specification vocabulary

    What the properties below are stated with: a declarative reading of
    the patterns, and the notions the specification uses in its own
    words. *)

Definition all_in (k : cset) (s : str) : bool := forallb (in_cset k) s.

(** A run of white space, possibly empty. *)
Definition blanks (s : str) : Prop := all_in Space s = true.

(** A base-10 numeral: one decimal digit or more. *)
Definition numeral (s : str) : Prop := s <> [] /\ all_in Digit s = true.

(** The first character of [s], if any, is not white space. *)
Definition no_leading_blank (s : str) : Prop :=
  match s with
  | [] => True
  | c :: _ => is_space c = false
  end.

(** [Matches r p m after cs cs']: at position [p] of the subject, with the
    groups [cs] captured so far, the pattern [r] can match the text [m],
    the text [after] staying to be read and the groups becoming [cs']. *)
Inductive Matches : regex -> nat -> str -> str -> list (nat * str) -> list (nat * str) -> Prop :=
| M_Eps p after cs :
    Matches Eps p [] after cs cs
| M_Lit c p after cs :
    Matches (Lit c) p [c] after cs cs
| M_Cls k c p after cs :
    in_cset k c = true ->
    Matches (Cls k) p [c] after cs cs
| M_Cat r1 r2 p m1 m2 after cs cs1 cs2 :
    Matches r1 p m1 (m2 ++ after) cs cs1 ->
    Matches r2 (p + length m1) m2 after cs1 cs2 ->
    Matches (Cat r1 r2) p (m1 ++ m2) after cs cs2
| M_AltL r1 r2 p m after cs cs' :
    Matches r1 p m after cs cs' ->
    Matches (Alt r1 r2) p m after cs cs'
| M_AltR r1 r2 p m after cs cs' :
    Matches r2 p m after cs cs' ->
    Matches (Alt r1 r2) p m after cs cs'
| M_Star g k p m after cs :
    all_in k m = true ->
    Matches (Star g k) p m after cs cs
| M_Group n r p m after cs cs' :
    Matches r p m after cs cs' ->
    Matches (Group n r) p m after cs ((n, m) :: cs')
| M_Bol after cs :
    Matches Bol 0 [] after cs cs
| M_Eol p after cs :
    at_end after = true ->
    Matches Eol p [] after cs cs.

(** [r] occurs in [s]: some part of [s] matches it. *)
Definition occurs (r : regex) (s : str) : Prop :=
  exists pre m post cs, s = pre ++ m ++ post /\ Matches r (length pre) m post [] cs.

(** The compiler said nothing: its stderr is absent or empty. *)
Definition stderr_silent (compile_stderr : option str) : Prop :=
  compile_stderr = None \/ compile_stderr = Some [].

(** ** The textual predicates and the message table of each phase *)

(** The predicates [validate] computes over the source text of a phase,
    in the order in which it computes them ([true]: the predicate holds). *)
Definition source_predicates (pid code : str) : list bool :=
  if str_eqb pid (txt "reality") then
    [is_some (re_search re_gravity code); is_some (re_search re_loop code)]
  else if str_eqb pid (txt "archaeology") then
    [is_some (re_search re_time code);
     negb (is_some (re_search re_ptr_time code));
     is_some (re_search re_emotion_sized code) || is_some (re_search re_emotion_any code)]
  else if str_eqb pid (txt "consciousness") then
    [is_some (re_search re_free code); is_some (re_search re_remember code)]
  else if str_eqb pid (txt "choice") then
    [is_some (re_search re_choice code)]
  else [].

(** The rows of the message table of a phase, in declaration order: what
    is tested, and the message appended when the test fails. *)
Definition message_rows (pid code : str) (compile_stderr : option str) : list (bool * str) :=
  if str_eqb pid (txt "reality") then
    [(is_some (re_search re_gravity code), msg_gravity);
     (is_some (re_search re_loop code), msg_loop)]
  else if str_eqb pid (txt "archaeology") then
    [(is_some (re_search re_time code), msg_time);
     (negb (is_some (re_search re_ptr_time code)), msg_ptr_time);
     (is_some (re_search re_emotion_sized code) || is_some (re_search re_emotion_any code),
      msg_emotion)]
  else if str_eqb pid (txt "consciousness") then
    [(is_some (re_search re_free code), msg_free)]
  else if str_eqb pid (txt "choice") then
    [(is_some (re_search re_choice code) && no_compile_errors compile_stderr, msg_decide)]
  else [].

Definition failing_messages (rows : list (bool * str)) : list str :=
  map snd (filter (fun row => negb (fst row)) rows).

Definition known_phase (pid : str) : bool :=
  str_eqb pid (txt "reality") || str_eqb pid (txt "archaeology")
  || str_eqb pid (txt "consciousness") || str_eqb pid (txt "choice").

(** ** Diagnostic lines *)

(** The diagnostics one line gives: the loop body run on an empty list. *)
Definition line_diags (ln : str) : list Diagnostic := diag_step [] ln.

(** The two numerals the pattern takes from a line, if it matches, have
    no more digits than [int] converts. *)
Definition line_in_limit (ln : str) : bool :=
  match re_match diag_pattern ln with
  | Some m =>
      match group m 1, group m 2, group m 3, group m 4, group m 5 with
      | Some _, Some line_no, Some col, Some _, Some _ =>
          (length line_no <=? int_max_str_digits) && (length col <=? int_max_str_digits)
      | _, _, _, _, _ => true
      end
  | None => true
  end.

Definition within_int_limit (stderr : str) : bool :=
  forallb line_in_limit (splitlines stderr).


(** The grammar [parse_diagnostics] reads: any run of white space, also an
    empty one, after the third and the fourth colon. *)
Definition reads_as (ln f line_no col k msg : str) : Prop :=
  exists w1 w2,
    ln = f ++ txt ":" ++ line_no ++ txt ":" ++ col ++ txt ":" ++ w1 ++ k ++ txt ":" ++ w2 ++ msg
    /\ numeral line_no /\ numeral col /\ blanks w1 /\ blanks w2
    /\ (k = txt "warning" \/ k = txt "error").

(** A line can be read as a diagnostic at all. *)
Definition readable (ln : str) : Prop :=
  exists f line_no col k msg, reads_as ln f line_no col k msg.

(** No reading of the line has a shorter file part than [f]. *)
Definition shortest_file (ln f : str) : Prop :=
  forall f' line_no col k msg, reads_as ln f' line_no col k msg -> length f <= length f'.



(** The pattern of [parse_diagnostics] after its first group, cut in two:
    up to the colon that follows the kind, and from there to the end of
    the line. *)
Definition diag_mid : regex :=
  (word ":" ;; Group 2 \d+ ;; word ":" ;; Group 3 \d+ ;; word ":" ;; \s* ;;
   Group 4 (word "warning" <|> word "error") ;; word ":")%re.

Definition diag_last : regex := (\s* ;; Group 5 (Star true Dot) ;; Eol)%re.

(** What the matcher finds on the line [ln] once the first group has
    taken its first [fst ns] characters, [snd ns] being what is left. *)
Definition diag_from (ln : str) (ns : nat * str) : list mstate :=
  flat_map (run diag_last)
           (run diag_mid (MState (fst ns) (snd ns) [(1, firstn (fst ns) ln)])).

(** ** The decision of phase choice *)

Inductive decision := SAVE_ALL | PRESERVE_CONSCIOUSNESS.

Definition token (d : decision) : str :=
  match d with
  | SAVE_ALL => txt "SAVE_ALL"
  | PRESERVE_CONSCIOUSNESS => txt "PRESERVE_CONSCIOUSNESS"
  end.

Definition narrative (d : decision) : str :=
  match d with
  | SAVE_ALL => roy_save_all
  | PRESERVE_CONSCIOUSNESS => roy_preserve
  end.

Fixpoint skip_blanks (s : str) : str :=
  match s with
  | c :: s' => if is_space c then skip_blanks s' else s
  | [] => []
  end.

(** [s] begins with a statement that returns [d]: the word return, white
    space, the token, white space if any, a semicolon. *)
Definition returns_at (d : decision) (s : str) : bool :=
  starts_with (txt "return") s &&
  match skipn 6 s with
  | c :: s1 =>
      is_space c && starts_with (token d) (skip_blanks s1)
      && starts_with (txt ";") (skip_blanks (skipn (length (token d)) (skip_blanks s1)))
  | [] => false
  end.

(** The decision of the leftmost such statement of the source text. *)
Fixpoint first_decision (s : str) : option decision :=
  if returns_at SAVE_ALL s then Some SAVE_ALL
  else if returns_at PRESERVE_CONSCIOUSNESS s then Some PRESERVE_CONSCIOUSNESS
  else match s with
       | [] => None
       | _ :: s' => first_decision s'
       end.

(** ** The predicates of phase archaeology *)

(** A character buffer named emotion with a size in decimal digits:
    [char emotion[<n>]], white space allowed around the name, the
    brackets and the size. *)
Definition sized_emotion_buffer (code : str) : Prop :=
  exists pre w1 w2 w3 n w4 post,
    code = pre ++ txt "char" ++ w1 ++ txt "emotion" ++ w2 ++ txt "[" ++ w3 ++ n ++ w4
               ++ txt "]" ++ post
    /\ w1 <> [] /\ blanks w1 /\ blanks w2 /\ blanks w3 /\ numeral n /\ blanks w4.

(** One of the wide time-capable type tokens: [time_t], [unsigned long
    long] (white space between its words) or [uint64_t]. *)
Definition time_type_token (code : str) : Prop :=
  exists pre post,
    code = pre ++ txt "time_t" ++ post
    \/ (exists w1 w2, code = pre ++ txt "unsigned" ++ w1 ++ txt "long" ++ w2 ++ txt "long" ++ post
                      /\ w1 <> [] /\ blanks w1 /\ w2 <> [] /\ blanks w2)
    \/ code = pre ++ txt "uint64_t" ++ post.

(** A typedef of [timestamp_t] as pointer to void. *)
Definition void_ptr_alias (code : str) : Prop :=
  exists pre w1 w2 w3 post,
    code = pre ++ txt "typedef" ++ w1 ++ txt "void" ++ w2 ++ txt "*" ++ w3
               ++ txt "timestamp_t" ++ post
    /\ w1 <> [] /\ blanks w1 /\ blanks w2 /\ blanks w3.

(** ** Arguments that need no quoting, and two sample machines *)

(** An argument [shlex.quote] returns as it is: not empty, and made of
    safe characters only. *)
Definition safe_arg (a : str) : bool := truthy a && forallb is_shell_safe a.

(** A machine whose every child process ends at once with status 0 and
    writes its arguments, one after the other, to its standard output. *)
Definition echo_machine (fs : filesystem) (cmd : list str) (input : option str) (timeout : Z)
  : proc_result * filesystem :=
  (CompletedProcess 0 (concat (tl cmd)) [], fs).

(** A machine on which every child process exceeds its bound. *)
Definition stalled_machine (fs : filesystem) (cmd : list str) (input : option str)
           (timeout : Z) : proc_result * filesystem :=
  (TimeoutExpired, fs).

(** A machine on which the compiler succeeds silently and the compiled
    program exceeds its bound. *)
Definition looping_machine (fs : filesystem) (cmd : list str) (input : option str)
           (timeout : Z) : proc_result * filesystem :=
  if str_eqb (hd [] cmd) (txt "gcc") then (CompletedProcess 0 [] [], fs)
  else (TimeoutExpired, fs).

(** What comes back when the compiler exceeds its bound. *)
Definition compile_timeout_response : CompileResponse.t :=
  CompileResponse.Build false (txt "Compilation timed out") false false [] [] None
    false [].

(** ** The curriculum *)

Module Phase.
Record t := Build {
  id : str;
  title : str;
  prompt : str;
  starter_code : str
}.
End Phase.

(** A line feed, a double quote, and the dash of one comment of the
    starter code of phase archaeology (U+2014, written as its UTF-8 bytes;
    no pattern of the rule engine can match any part of it). *)
Definition nl : str := [LF].
Definition dq : str := [DQUOTE].
Definition EM_DASH : str := map ascii_of_nat [226; 128; 148].

Definition prompt_reality : str :=
  txt "Fix unstable reality parameters. Gravity should be precise and loops should terminate." ++ nl
  ++ txt "Compile and run. When it's right, reality will stop flickering.".

Definition starter_reality : str :=
  txt "#include <stdio.h>" ++ nl
  ++ nl
  ++ txt "int main(void) {" ++ nl
  ++ txt "    // Fix unstable reality parameters" ++ nl
  ++ txt "    float gravity = 9.8; // Should be 9.81" ++ nl
  ++ txt "    int darkness = 0;" ++ nl
  ++ txt "    for (int i = 0; i > 10; i++) { // Infinite darkness" ++ nl
  ++ txt "        darkness += i;" ++ nl
  ++ txt "    }" ++ nl
  ++ txt "    printf(" ++ dq ++ txt "gravity=%.2f darkness=%d\n" ++ dq ++ txt ", gravity, darkness);" ++ nl
  ++ txt "    return 0;" ++ nl
  ++ txt "}" ++ nl.

Definition prompt_archaeology : str :=
  txt "Define a stable Memory structure. Use a fixed-size emotion buffer and a real timestamp type." ++ nl
  ++ txt "Print the emotion and timestamp to prove integrity.".

Definition starter_archaeology : str :=
  txt "#include <stdio.h>" ++ nl
  ++ txt "#include <string.h>" ++ nl
  ++ txt "#include <time.h>" ++ nl
  ++ nl
  ++ txt "// timestamp_t is corrupted " ++ EM_DASH ++ txt " replace with a real type like time_t or unsigned long long" ++ nl
  ++ txt "typedef void* timestamp_t;" ++ nl
  ++ nl
  ++ txt "struct Memory {" ++ nl
  ++ txt "    char emotion[20]; // may truncate, consider length" ++ nl
  ++ txt "    timestamp_t when; // Broken pointer to time" ++ nl
  ++ txt "};" ++ nl
  ++ nl
  ++ txt "int main(void){" ++ nl
  ++ txt "    struct Memory m;" ++ nl
  ++ txt "    strcpy(m.emotion, " ++ dq ++ txt "love" ++ dq ++ txt ");" ++ nl
  ++ txt "    m.when = NULL;" ++ nl
  ++ txt "    printf(" ++ dq ++ txt "%s @ %p\n" ++ dq ++ txt ", m.emotion, (void*)m.when);" ++ nl
  ++ txt "    return 0;" ++ nl
  ++ txt "}" ++ nl.

Definition prompt_consciousness : str :=
  txt "Allocate a Memory on the heap and ensure no leaks. Initialize fields and free before exit." ++ nl.

Definition starter_consciousness : str :=
  txt "#include <stdio.h>" ++ nl
  ++ txt "#include <stdlib.h>" ++ nl
  ++ txt "#include <string.h>" ++ nl
  ++ txt "#include <time.h>" ++ nl
  ++ nl
  ++ txt "typedef struct {" ++ nl
  ++ txt "    char emotion[32];" ++ nl
  ++ txt "    time_t when;" ++ nl
  ++ txt "} Memory;" ++ nl
  ++ nl
  ++ txt "void* remember(){" ++ nl
  ++ txt "    Memory* m = malloc(sizeof(Memory));" ++ nl
  ++ txt "    strcpy(m->emotion, " ++ dq ++ txt "joy" ++ dq ++ txt ");" ++ nl
  ++ txt "    m->when = time(NULL);" ++ nl
  ++ txt "    return m; // LEAK: ROY's soul is disappearing" ++ nl
  ++ txt "}" ++ nl
  ++ nl
  ++ txt "int main(void){" ++ nl
  ++ txt "    Memory* m = (Memory*)remember();" ++ nl
  ++ txt "    printf(" ++ dq ++ txt "%s %ld\n" ++ dq ++ txt ", m->emotion, (long)m->when);" ++ nl
  ++ txt "    // TODO: free?" ++ nl
  ++ txt "    return 0;" ++ nl
  ++ txt "}" ++ nl.

Definition prompt_choice : str :=
  txt "Return either SAVE_ALL or PRESERVE_CONSCIOUSNESS. The choice shapes the ending. Print your choice.".

Definition starter_choice : str :=
  txt "#include <stdio.h>" ++ nl
  ++ nl
  ++ txt "enum Decision { SAVE_ALL = 1, PRESERVE_CONSCIOUSNESS = 2 };" ++ nl
  ++ nl
  ++ txt "enum Decision decide(){" ++ nl
  ++ txt "    // Make your choice" ++ nl
  ++ txt "    return 0;" ++ nl
  ++ txt "}" ++ nl
  ++ nl
  ++ txt "int main(void){" ++ nl
  ++ txt "    enum Decision d = decide();" ++ nl
  ++ txt "    printf(" ++ dq ++ txt "%d\n" ++ dq ++ txt ", d);" ++ nl
  ++ txt "    return 0;" ++ nl
  ++ txt "}" ++ nl.

Definition PHASES : list Phase.t :=
  [Phase.Build (txt "reality") (txt "Phase 1: Reality Debugging") prompt_reality starter_reality;
   Phase.Build (txt "archaeology") (txt "Phase 2: Memory Archaeology") prompt_archaeology starter_archaeology;
   Phase.Build (txt "consciousness") (txt "Phase 3: Consciousness Repair") prompt_consciousness starter_consciousness;
   Phase.Build (txt "choice") (txt "Phase 4: The Final Choice") prompt_choice starter_choice].

(** [get_phases]: one dictionary for each phase, in the order of
    [PHASES]; a dictionary is the list of its keys and values. *)
Definition get_phases : list (list (str * str)) :=
  map (fun p => [(txt "id", Phase.id p);
                 (txt "title", Phase.title p);
                 (txt "prompt", Phase.prompt p);
                 (txt "starterCode", Phase.starter_code p)])
      PHASES.

(** [d.get(key)] on a dictionary kept as the list of its keys and
    values. *)
Fixpoint dict_get (key : str) (d : list (str * str)) : option str :=
  match d with
  | [] => None
  | (k, v) :: d' => if str_eqb k key then Some v else dict_get key d'
  end.

(** ** The persistence probe *)

(** What evaluating an expression gives: its value, or an exception, kept
    as the text [str(e)] of it. *)
Inductive attempt (A : Type) :=
| Returns (a : A)
| Raises (e : str).

Arguments Returns {A} a.
Arguments Raises {A} e.

(** What reading the attribute name of [db] gives: there is no such
    attribute, or a value, or an exception other than [AttributeError],
    which may be an [ImportError]. *)
Inductive name_access :=
| NoAttribute
| HasValue (v : str)
| AccessRaises (is_import_error : bool) (e : str).

(** What the probe observes of the object [db]: its attribute name, and
    what listing its collections and taking the first ten gives. *)
Record db_handle := Build_db {
  name_attr : name_access;
  list_collection_names : attempt (list str)
}.

(** What [from database import db] gives: an [ImportError], another
    exception, or the value of [db], which can be [None]. *)
Inductive import_outcome :=
| ImportError
| ImportRaises (e : str)
| Imported (db : option db_handle).

Module Probe.
Record t := Build {
  backend : str;
  database : str;
  database_url : option str;
  database_name : option str;
  connection_status : str;
  collections : list str
}.
End Probe.

Definition set_database (v : str) (r : Probe.t) : Probe.t :=
  Probe.Build (Probe.backend r) v (Probe.database_url r) (Probe.database_name r)
    (Probe.connection_status r) (Probe.collections r).

Definition set_database_url (v : str) (r : Probe.t) : Probe.t :=
  Probe.Build (Probe.backend r) (Probe.database r) (Some v) (Probe.database_name r)
    (Probe.connection_status r) (Probe.collections r).

Definition set_database_name (v : str) (r : Probe.t) : Probe.t :=
  Probe.Build (Probe.backend r) (Probe.database r) (Probe.database_url r) (Some v)
    (Probe.connection_status r) (Probe.collections r).

Definition set_connection_status (v : str) (r : Probe.t) : Probe.t :=
  Probe.Build (Probe.backend r) (Probe.database r) (Probe.database_url r)
    (Probe.database_name r) v (Probe.collections r).

Definition set_collections (v : list str) (r : Probe.t) : Probe.t :=
  Probe.Build (Probe.backend r) (Probe.database r) (Probe.database_url r)
    (Probe.database_name r) (Probe.connection_status r) v.

(** The two answers about an environment variable. *)
Definition env_set : str := txt "✅ Set".
Definition env_not_set : str := txt "❌ Not Set".

(** The truth value of [os.getenv(...)]: a variable that is absent or
    empty counts as false. *)
Definition env_truthy (v : option str) : bool :=
  match v with
  | Some s => truthy s
  | None => false
  end.

Section Probe.

(** What the import gives, and the environment of the process. *)
Variable import_db : import_outcome.
Variable getenv : str -> option str.

(** The body of the [try] statement, from the response as first built. *)
Definition probe_database (response : Probe.t) : Probe.t :=
  match import_db with
  | Imported (Some db) =>
      let response := set_database (txt "✅ Available") response in
      let response := set_database_url (txt "✅ Configured") response in
      match name_attr db with
      | AccessRaises true _ =>
          set_database (txt "❌ Database module not found (run enable-database first)")
            response
      | AccessRaises false e => set_database (txt "❌ Error: " ++ firstn 50 e) response
      | has_name =>
          let response :=
            set_database_name
              (match has_name with
               | HasValue v => v
               | _ => txt "✅ Connected"
               end) response in
          let response := set_connection_status (txt "Connected") response in
          match list_collection_names db with
          | Returns cs =>
              let response := set_collections (firstn 10 cs) response in
              set_database (txt "✅ Connected & Working") response
          | Raises e =>
              set_database (txt "⚠️  Connected but Error: " ++ firstn 50 e) response
          end
      end
  | Imported None => set_database (txt "⚠️  Available but not initialized") response
  | ImportError =>
      set_database (txt "❌ Database module not found (run enable-database first)") response
  | ImportRaises e => set_database (txt "❌ Error: " ++ firstn 50 e) response
  end.

Definition test_database : Probe.t :=
  let response :=
    Probe.Build (txt "✅ Running") (txt "❌ Not Available") None None
      (txt "Not Connected") [] in
  let response := probe_database response in
  let response :=
    set_database_url
      (if env_truthy (getenv (txt "DATABASE_URL")) then env_set else env_not_set)
      response in
  set_database_name
    (if env_truthy (getenv (txt "DATABASE_NAME")) then env_set else env_not_set)
    response.

End Probe.

(** ** More vocabulary for the rule engine *)

(** No part of the pattern looks at where the subject starts or ends. *)
Fixpoint anchor_free (r : regex) : bool :=
  match r with
  | Bol | Eol => false
  | Cat r1 r2 | Alt r1 r2 => anchor_free r1 && anchor_free r2
  | Group _ r1 => anchor_free r1
  | Eps | Lit _ | Cls _ | Star _ _ => true
  end.

(** An assignment of 9.81 to gravity: [gravity = 9.81], white space
    allowed around the equals sign. *)
Definition gravity_assignment (code : str) : Prop :=
  exists pre w1 w2 post,
    code = pre ++ txt "gravity" ++ w1 ++ txt "=" ++ w2 ++ txt "9.81" ++ post
    /\ blanks w1 /\ blanks w2.

(** The loop header [for (int i = 0; i < 10;], white space allowed
    between its tokens and required after [int]. *)
Definition loop_header (code : str) : Prop :=
  exists pre w1 w2 w3 w4 w5 w6 w7 w8 w9 w10 post,
    code = pre ++ txt "for" ++ w1 ++ txt "(" ++ w2 ++ txt "int" ++ w3 ++ txt "i" ++ w4
               ++ txt "=" ++ w5 ++ txt "0" ++ w6 ++ txt ";" ++ w7 ++ txt "i" ++ w8
               ++ txt "<" ++ w9 ++ txt "10" ++ w10 ++ txt ";" ++ post
    /\ blanks w1 /\ blanks w2 /\ w3 <> [] /\ blanks w3 /\ blanks w4 /\ blanks w5
    /\ blanks w6 /\ blanks w7 /\ blanks w8 /\ blanks w9 /\ blanks w10.

(** A call [free(<identifier>);]: the identifier is one word character or
    more, white space allowed around the brackets and before the
    semicolon. *)
Definition free_call (code : str) : Prop :=
  exists pre w1 w2 ident w3 w4 post,
    code = pre ++ txt "free" ++ w1 ++ txt "(" ++ w2 ++ ident ++ w3 ++ txt ")" ++ w4
               ++ txt ";" ++ post
    /\ blanks w1 /\ blanks w2 /\ ident <> [] /\ all_in Word ident = true
    /\ blanks w3 /\ blanks w4.

(** The head of a declaration [void* remember(], white space allowed
    around the star and before the bracket. *)
Definition remember_declaration (code : str) : Prop :=
  exists pre w1 w2 w3 post,
    code = pre ++ txt "void" ++ w1 ++ txt "*" ++ w2 ++ txt "remember" ++ w3 ++ txt "("
               ++ post
    /\ blanks w1 /\ blanks w2 /\ blanks w3.

(** The two narrative lines of a phase other than choice: the one of
    success, the one of failure. *)
Definition phase_narratives (pid : str) : option (str * str) :=
  if str_eqb pid (txt "reality") then Some (roy_reality_ok, roy_reality_ko)
  else if str_eqb pid (txt "archaeology") then Some (roy_archaeology_ok, roy_archaeology_ko)
  else if str_eqb pid (txt "consciousness")
       then Some (roy_consciousness_ok, roy_consciousness_ko)
  else None.

(** * Texts: the tests against their meaning *)

Lemma str_eqb_eq (a b : str) : str_eqb a b = true <-> a = b.
Proof.
  revert b; induction a as [|x a IH]; intros [|y b]; simpl; split; intro H;
    try reflexivity; try discriminate.
  - apply andb_true_iff in H as [Hxy Hab].
    apply Ascii.eqb_eq in Hxy; apply IH in Hab; congruence.
  - injection H as -> ->. rewrite Ascii.eqb_refl. simpl. now apply IH.
Qed.

Lemma str_eqb_refl (a : str) : str_eqb a a = true.
Proof. now apply str_eqb_eq. Qed.

Lemma starts_with_spec (p s : str) :
  starts_with p s = true <-> exists t, s = p ++ t.
Proof.
  revert s; induction p as [|x p IH]; intros s; simpl.
  - split; [intros _; now exists s | reflexivity].
  - destruct s as [|y s].
    + split; [discriminate | intros [t Ht]; discriminate].
    + rewrite andb_true_iff, Ascii.eqb_eq, IH. split.
      * intros [-> [t ->]]. now exists t.
      * intros [t Ht]. injection Ht as -> ->. split; [reflexivity | now exists t].
Qed.

Lemma starts_with_app (p t : str) : starts_with p (p ++ t) = true.
Proof. apply starts_with_spec. now exists t. Qed.

Lemma substr_spec (needle hay : str) :
  substr needle hay = true <-> exists pre post, hay = pre ++ needle ++ post.
Proof.
  induction hay as [|c hay IH].
  - simpl. rewrite orb_false_r, starts_with_spec. split.
    + intros [t Ht]. now exists [], t.
    + intros [[|x pre] [post H]]; [now exists post | discriminate].
  - cbn [substr]. rewrite orb_true_iff, starts_with_spec, IH. split.
    + intros [[t Ht] | [pre [post Ht]]].
      * now exists [], t.
      * exists (c :: pre), post. simpl. now rewrite Ht.
    + intros [[|x pre] [post H]].
      * left. now exists post.
      * right. injection H as -> ->. now exists pre, post.
Qed.

Lemma firstn_exact {A : Type} (m a : list A) : firstn (length m) (m ++ a) = m.
Proof. induction m as [|x m IH]; simpl; [reflexivity | now rewrite IH]. Qed.

Lemma skipn_exact {A : Type} (m a : list A) : skipn (length m) (m ++ a) = a.
Proof. induction m as [|x m IH]; simpl; [reflexivity | exact IH]. Qed.

Lemma all_in_app (k : cset) (a b : str) :
  all_in k (a ++ b) = all_in k a && all_in k b.
Proof. apply forallb_app. Qed.

Lemma all_in_suffix (k : cset) (a b : str) :
  all_in k (a ++ b) = true -> all_in k b = true.
Proof. rewrite all_in_app. intros H. now apply andb_true_iff in H. Qed.

(** A run of characters of a class that stops at a character outside it
    can be cut in one way only. *)
Lemma run_cut_unique (f : ascii -> bool) (w w' x y : str) :
  forallb f w = true -> forallb f w' = true ->
  match x with [] => True | c :: _ => f c = false end ->
  match y with [] => True | c :: _ => f c = false end ->
  w ++ x = w' ++ y -> w = w' /\ x = y.
Proof.
  revert w'; induction w as [|a w IH]; intros [|a' w'] Hw Hw' Hx Hy E; simpl in *.
  - now split.
  - subst x. apply andb_true_iff in Hw' as [Ha' _]. congruence.
  - subst y. apply andb_true_iff in Hw as [Ha _]. congruence.
  - injection E as -> E.
    apply andb_true_iff in Hw as [_ Hw]. apply andb_true_iff in Hw' as [_ Hw'].
    destruct (IH w' Hw Hw' Hx Hy E) as [-> ->]. now split.
Qed.

(** * The matcher against the declarative reading *)

Lemma star_greedy_In (k : cset) (s : str) :
  forall n n' s',
    In (n', s') (star_greedy k n s) <->
    exists m, s = m ++ s' /\ n' = n + length m /\ all_in k m = true.
Proof.
  induction s as [|c s IH]; intros n n' s'; simpl.
  - split.
    + intros [E | []]. injection E as <- <-. exists []. simpl. now rewrite Nat.add_0_r.
    + intros [[|x m] (E & -> & _)]; [|discriminate].
      simpl in E. subst s'. left. now rewrite Nat.add_0_r.
  - rewrite in_app_iff. split.
    + intros [H | [E | []]].
      * destruct (in_cset k c) eqn:Hc; [|destruct H].
        apply IH in H as (m & -> & -> & Hm). exists (c :: m). simpl.
        rewrite Hc, Hm. repeat split. lia.
      * injection E as <- <-. exists []. simpl. now rewrite Nat.add_0_r.
    + intros [[|x m] (E & -> & Hm)].
      * simpl in E. subst s'. right. left. now rewrite Nat.add_0_r.
      * simpl in E. injection E as <- ->. simpl in Hm.
        apply andb_true_iff in Hm as [Hc Hm]. left. rewrite Hc.
        apply IH. exists m. simpl. repeat split; [lia | exact Hm].
Qed.

Lemma star_lazy_In (k : cset) (s : str) :
  forall n n' s',
    In (n', s') (star_lazy k n s) <->
    exists m, s = m ++ s' /\ n' = n + length m /\ all_in k m = true.
Proof.
  induction s as [|c s IH]; intros n n' s'; simpl.
  - split.
    + intros [E | []]. injection E as <- <-. exists []. simpl. now rewrite Nat.add_0_r.
    + intros [[|x m] (E & -> & _)]; [|discriminate].
      simpl in E. subst s'. left. now rewrite Nat.add_0_r.
  - split.
    + intros [E | H].
      * injection E as <- <-. exists []. simpl. now rewrite Nat.add_0_r.
      * destruct (in_cset k c) eqn:Hc; [|destruct H].
        apply IH in H as (m & -> & -> & Hm). exists (c :: m). simpl.
        rewrite Hc, Hm. repeat split. lia.
    + intros [[|x m] (E & -> & Hm)].
      * simpl in E. subst s'. left. now rewrite Nat.add_0_r.
      * simpl in E. injection E as <- ->. simpl in Hm.
        apply andb_true_iff in Hm as [Hc Hm]. right. rewrite Hc.
        apply IH. exists m. simpl. repeat split; [lia | exact Hm].
Qed.

(** Every way the matcher finds is a declarative match. *)
Lemma run_sound (r : regex) :
  forall st st',
    In st' (run r st) ->
    exists m, rest st = m ++ rest st' /\ pos st' = pos st + length m
              /\ Matches r (pos st) m (rest st') (caps st) (caps st').
Proof.
  induction r as [| c | k | r1 IH1 r2 IH2 | r1 IH1 r2 IH2 | g k | n r1 IH1 | |];
    intros st st' H; simpl in H.
  - destruct H as [<- | []]. exists []. simpl. rewrite Nat.add_0_r.
    repeat split. constructor.
  - destruct (rest st) as [|x s'] eqn:E; [destruct H|].
    destruct (Ascii.eqb x c) eqn:Hx; [|destruct H].
    apply Ascii.eqb_eq in Hx. subst x. destruct H as [<- | []]. simpl.
    exists [c]. simpl. repeat split; [lia | constructor].
  - destruct (rest st) as [|x s'] eqn:E; [destruct H|].
    destruct (in_cset k x) eqn:Hx; [|destruct H].
    destruct H as [<- | []]. simpl.
    exists [x]. simpl. repeat split; [lia | now constructor].
  - apply in_flat_map in H as (st1 & H1 & H2).
    apply IH1 in H1 as (m1 & E1 & P1 & M1).
    apply IH2 in H2 as (m2 & E2 & P2 & M2).
    exists (m1 ++ m2). rewrite E1, E2, <- app_assoc, length_app. repeat split; [lia|].
    rewrite E2 in M1. rewrite P1 in M2. econstructor; eassumption.
  - apply in_app_iff in H as [H | H].
    + apply IH1 in H as (m & E & P & M). exists m. repeat split; auto using M_AltL.
    + apply IH2 in H as (m & E & P & M). exists m. repeat split; auto using M_AltR.
  - apply in_map_iff in H as ([n' s'] & <- & H). simpl.
    assert (exists m, rest st = m ++ s' /\ n' = 0 + length m /\ all_in k m = true)
      as (m & E & -> & Hm)
      by (destruct g; [apply star_greedy_In | apply star_lazy_In]; exact H).
    exists m. repeat split; [exact E | now constructor].
  - apply in_map_iff in H as (st1 & <- & H). simpl.
    apply IH1 in H as (m & E & P & M).
    exists m. repeat split; [exact E | exact P|].
    rewrite P, E. replace (pos st + length m - pos st) with (length m) by lia.
    rewrite firstn_exact. now constructor.
  - destruct (Nat.eqb (pos st) 0) eqn:E; [|destruct H].
    apply Nat.eqb_eq in E. destruct H as [<- | []].
    exists []. simpl. rewrite E. repeat split. constructor.
  - destruct (at_end (rest st)) eqn:E; [|destruct H].
    destruct H as [<- | []]. exists []. simpl. rewrite Nat.add_0_r.
    repeat split. now constructor.
Qed.

(** Every declarative match is found by the matcher. *)
Lemma run_complete r p m after cs cs' :
  Matches r p m after cs cs' ->
  In (MState (p + length m) after cs') (run r (MState p (m ++ after) cs)).
Proof.
  induction 1; simpl.
  - left. now rewrite Nat.add_0_r.
  - rewrite Ascii.eqb_refl. left. f_equal. lia.
  - rewrite H. left. f_equal. lia.
  - apply in_flat_map. exists (MState (p + length m1) (m2 ++ after) cs1).
    rewrite <- app_assoc. split; [exact IHMatches1|].
    rewrite length_app, Nat.add_assoc. exact IHMatches2.
  - apply in_app_iff. now left.
  - apply in_app_iff. now right.
  - apply in_map_iff. exists (length m, after). split; [reflexivity|].
    destruct g; [apply star_greedy_In | apply star_lazy_In];
      exists m; now repeat split.
  - apply in_map_iff. exists (MState (p + length m) after cs'). split; [|exact IHMatches].
    simpl. replace (p + length m - p) with (length m) by lia.
    now rewrite firstn_exact.
  - now left.
  - rewrite H. left. now rewrite Nat.add_0_r.
Qed.

Lemma hd_error_In {A : Type} (l : list A) (a : A) : hd_error l = Some a -> In a l.
Proof. destruct l; simpl; [discriminate | intros [= ->]; now left]. Qed.

(** [search_from] finds nothing exactly when no start position gives a
    match. *)
Lemma search_from_None (r : regex) (s : str) :
  forall p,
    search_from r p s = None <->
    forall pre tl, s = pre ++ tl -> run r (start_at (p + length pre) tl) = [].
Proof.
  induction s as [|c s IH]; intros p; simpl.
  - destruct (run r (start_at p [])) eqn:E.
    + split; [|reflexivity]. intros _ [|x pre] tl H; [|discriminate].
      simpl in H. subst tl. simpl. now rewrite Nat.add_0_r.
    + split; [discriminate|]. intros H. specialize (H [] [] eq_refl).
      simpl in H. rewrite Nat.add_0_r in H. congruence.
  - destruct (run r (start_at p (c :: s))) eqn:E.
    + rewrite IH. split.
      * intros H [|x pre] tl Hs.
        -- simpl in Hs. subst tl. simpl. now rewrite Nat.add_0_r.
        -- injection Hs as -> ->. simpl.
           replace (p + S (length pre)) with (S p + length pre) by lia. now apply H.
      * intros H pre tl ->. specialize (H (c :: pre) tl eq_refl). simpl in H.
        now replace (S p + length pre) with (p + S (length pre)) by lia.
    + split; [discriminate|]. intros H. specialize (H [] (c :: s) eq_refl).
      simpl in H. rewrite Nat.add_0_r in H. congruence.
Qed.

(** What [search_from] finds is the first way to match at the leftmost
    start position that has one. *)
Lemma search_from_Some (r : regex) (s : str) :
  forall p st,
    search_from r p s = Some st ->
    exists pre tl,
      s = pre ++ tl
      /\ hd_error (run r (start_at (p + length pre) tl)) = Some st
      /\ forall pre' tl', s = pre' ++ tl' -> length pre' < length pre ->
                          run r (start_at (p + length pre') tl') = [].
Proof.
  induction s as [|c s IH]; intros p st; simpl.
  - destruct (run r (start_at p [])) eqn:E; [discriminate|].
    intros [= <-]. exists [], []. simpl. rewrite Nat.add_0_r, E.
    repeat split. intros pre' tl' _ Hl. lia.
  - destruct (run r (start_at p (c :: s))) eqn:E.
    + intros H. apply IH in H as (pre & tl & -> & Hhd & Hmin).
      exists (c :: pre), tl. simpl.
      replace (p + S (length pre)) with (S p + length pre) by lia.
      repeat split; [exact Hhd|].
      intros [|x pre'] tl' Hs Hl.
      * simpl in Hs. subst tl'. simpl. now rewrite Nat.add_0_r.
      * injection Hs as -> Hs. simpl in *.
        replace (p + S (length pre')) with (S p + length pre') by lia.
        apply Hmin; [exact Hs | lia].
    + intros [= <-]. exists [], (c :: s). simpl. rewrite Nat.add_0_r, E.
      repeat split. intros pre' tl' _ Hl. lia.
Qed.

(** [re.search] succeeds exactly on the texts in which the pattern
    occurs. *)
Lemma search_occurs (r : regex) (s : str) :
  is_some (re_search r s) = true <-> occurs r s.
Proof.
  unfold re_search. split.
  - destruct (search_from r 0 s) as [st|] eqn:E; [intros _ | discriminate].
    apply search_from_Some in E as (pre & tl & -> & Hhd & _).
    apply hd_error_In, run_sound in Hhd as (m & E & _ & M). simpl in *.
    exists pre, m, (rest st), (caps st). now rewrite E.
  - intros (pre & m & post & cs & -> & M).
    destruct (search_from r 0 (pre ++ m ++ post)) eqn:E; [reflexivity|].
    exfalso. rewrite search_from_None in E.
    specialize (E pre (m ++ post) eq_refl). apply run_complete in M.
    simpl in E. unfold start_at in E. rewrite E in M. destruct M.
Qed.

Lemma search_None_occurs (r : regex) (s : str) :
  re_search r s = None <-> ~ occurs r s.
Proof.
  rewrite <- search_occurs. destruct (re_search r s); simpl; split;
    congruence || discriminate || auto.
Qed.

(** * Reading a pattern part by part *)

Lemma Matches_lits w p m a cs cs' :
  Matches (lits w) p m a cs cs' <-> m = w /\ cs' = cs.
Proof.
  revert p m. induction w as [|c w IH]; intros p m; simpl; split.
  - inversion 1; subst. now split.
  - intros [-> ->]. constructor.
  - inversion 1 as [| | | ? ? ? m1 m2 ? ? cs1 ? H1 H2 | | | | | |]; subst.
    inversion H1; subst. apply IH in H2 as [-> ->]. now split.
  - intros [-> ->]. change (c :: w) with ([c] ++ w).
    econstructor; [constructor | apply IH; now split].
Qed.

Lemma Matches_word_then w r p m a cs cs' :
  Matches (Cat (lits w) r) p m a cs cs' <->
  exists m2, m = w ++ m2 /\ Matches r (p + length w) m2 a cs cs'.
Proof.
  split.
  - inversion 1 as [| | | ? ? ? m1 m2 ? ? cs1 ? H1 H2 | | | | | |]; subst.
    apply Matches_lits in H1 as [-> ->]. now exists m2.
  - intros (m2 & -> & H). econstructor; [|exact H]. apply Matches_lits. now split.
Qed.

Lemma Matches_star_then g k r p m a cs cs' :
  Matches (Cat (Star g k) r) p m a cs cs' <->
  exists w m2, m = w ++ m2 /\ all_in k w = true /\ Matches r (p + length w) m2 a cs cs'.
Proof.
  split.
  - inversion 1 as [| | | ? ? ? m1 m2 ? ? cs1 ? H1 H2 | | | | | |]; subst.
    inversion H1; subst. now exists m1, m2.
  - intros (w & m2 & -> & Hw & H). econstructor; [|exact H]. now constructor.
Qed.

Lemma Matches_Plus k p m a cs cs' :
  Matches (Plus k) p m a cs cs' <-> m <> [] /\ all_in k m = true /\ cs' = cs.
Proof.
  unfold Plus. split.
  - inversion 1 as [| | | ? ? ? m1 m2 ? ? cs1 ? H1 H2 | | | | | |]; subst.
    inversion H1; subst. inversion H2; subst. simpl.
    repeat split; [discriminate|]. now apply andb_true_iff.
  - intros (Hne & Hm & ->). destruct m as [|c m]; [congruence|].
    simpl in Hm. apply andb_true_iff in Hm as [Hc Hm].
    change (c :: m) with ([c] ++ m). econstructor; now constructor.
Qed.

Lemma Matches_plus_then k r p m a cs cs' :
  Matches (Cat (Plus k) r) p m a cs cs' <->
  exists w m2, m = w ++ m2 /\ w <> [] /\ all_in k w = true
               /\ Matches r (p + length w) m2 a cs cs'.
Proof.
  split.
  - inversion 1 as [| | | ? ? ? m1 m2 ? ? cs1 ? H1 H2 | | | | | |]; subst.
    apply Matches_Plus in H1 as (Hne & Hm & ->). now exists m1, m2.
  - intros (w & m2 & -> & Hne & Hw & H). econstructor; [|exact H].
    apply Matches_Plus. now repeat split.
Qed.

Lemma Matches_group_then n r1 r p m a cs cs' :
  Matches (Cat (Group n r1) r) p m a cs cs' <->
  exists m1 m2 cs1, m = m1 ++ m2 /\ Matches r1 p m1 (m2 ++ a) cs cs1
                    /\ Matches r (p + length m1) m2 a ((n, m1) :: cs1) cs'.
Proof.
  split.
  - inversion 1 as [| | | ? ? ? m1 m2 ? ? cs1 ? H1 H2 | | | | | |]; subst.
    inversion H1; subst. now exists m1, m2, cs'0.
  - intros (m1 & m2 & cs1 & -> & H1 & H). econstructor; [|exact H]. now constructor.
Qed.

Lemma Matches_Alt r1 r2 p m a cs cs' :
  Matches (Alt r1 r2) p m a cs cs' <->
  Matches r1 p m a cs cs' \/ Matches r2 p m a cs cs'.
Proof.
  split.
  - inversion 1; subst; [now left | now right].
  - intros [H | H]; [now apply M_AltL | now apply M_AltR].
Qed.

Lemma Matches_cls_then k r p m a cs cs' :
  Matches (Cat (Cls k) r) p m a cs cs' <->
  exists c m2, m = c :: m2 /\ in_cset k c = true /\ Matches r (S p) m2 a cs cs'.
Proof.
  split.
  - inversion 1 as [| | | ? ? ? m1 m2 ? ? cs1 ? H1 H2 | | | | | |]; subst.
    inversion H1; subst. exists c, m2. simpl in H2.
    replace (p + 1) with (S p) in H2 by lia. now repeat split.
  - intros (c & m2 & -> & Hc & H). change (c :: m2) with ([c] ++ m2).
    econstructor; [now constructor|]. simpl. now replace (p + 1) with (S p) by lia.
Qed.

(** Taking a match apart, one part of the pattern at a time. *)
Ltac read_match H :=
  repeat
    match type of H with
    | Matches (Cat (word _) _) _ _ _ _ _ =>
        unfold word in H; apply Matches_word_then in H as (? & -> & H)
    | Matches (Cat (lits _) _) _ _ _ _ _ =>
        apply Matches_word_then in H as (? & -> & H)
    | Matches (Cat (Star _ _) _) _ _ _ _ _ =>
        apply Matches_star_then in H as (? & ? & -> & ? & H)
    | Matches (Cat (Plus _) _) _ _ _ _ _ =>
        apply Matches_plus_then in H as (? & ? & -> & ? & ? & H)
    | Matches (Cat (Cls _) _) _ _ _ _ _ =>
        apply Matches_cls_then in H as (? & ? & -> & ? & H)
    | Matches (word _) _ _ _ _ _ =>
        unfold word in H; apply Matches_lits in H as [-> ?]
    | Matches (lits _) _ _ _ _ _ =>
        apply Matches_lits in H as [-> ?]
    end.

(** Putting a match together, one part of the pattern at a time; the text
    is written as the parts appended in order. *)
Ltac build_match :=
  repeat
    (match goal with
     | |- Matches (Cat (word _) _) _ _ _ _ _ =>
         unfold word; apply Matches_word_then; eexists; split; [reflexivity|]
     | |- Matches (Cat (lits _) _) _ _ _ _ _ =>
         apply Matches_word_then; eexists; split; [reflexivity|]
     | |- Matches (Cat (Star _ _) _) _ _ _ _ _ =>
         apply Matches_star_then; do 2 eexists;
         split; [reflexivity | split; [eassumption || reflexivity|]]
     | |- Matches (Cat (Plus _) _) _ _ _ _ _ =>
         apply Matches_plus_then; do 2 eexists;
         split; [reflexivity | split; [eassumption || discriminate
                                      | split; [eassumption || reflexivity|]]]
     | |- Matches (word _) _ _ _ _ _ =>
         unfold word; apply Matches_lits; split; reflexivity
     | |- Matches (lits _) _ _ _ _ _ =>
         apply Matches_lits; split; reflexivity
     end).

(** ** The patterns of phase archaeology *)

Lemma emotion_any_occurs (code : str) :
  occurs re_emotion_any code <-> sized_emotion_buffer code.
Proof.
  split.
  - intros (pre & m & post & cs & -> & M). unfold re_emotion_any in M.
    read_match M. rewrite <- ?app_assoc.
    do 7 eexists. split; [reflexivity|]. repeat split; assumption.
  - intros (pre & w1 & w2 & w3 & n & w4 & post & -> & Hne & H1 & H2 & H3 & [Hn Hd] & H4).
    exists pre, (txt "char" ++ w1 ++ txt "emotion" ++ w2 ++ txt "[" ++ w3 ++ n ++ w4 ++ txt "]"),
      post, [].
    split; [now rewrite <- ?app_assoc|].
    unfold re_emotion_any. build_match.
Qed.

Lemma Matches_Cls k p m a cs cs' :
  Matches (Cls k) p m a cs cs' <-> exists c, m = [c] /\ in_cset k c = true /\ cs' = cs.
Proof.
  split.
  - inversion 1; subst. now exists c.
  - intros (c & -> & Hc & ->). now constructor.
Qed.

(** The first pattern of the emotion test asks for a size from 20 to 39;
    whatever it accepts, the second pattern accepts too. *)
Lemma emotion_sized_occurs (code : str) :
  occurs re_emotion_sized code -> sized_emotion_buffer code.
Proof.
  intros (pre & m & post & cs & -> & M). unfold re_emotion_sized in M.
  read_match M.
  apply Matches_group_then in M as (n & m2 & cs1 & -> & Hn & M).
  read_match M. rewrite <- ?app_assoc.
  assert (numeral n) as Hnum.
  { apply Matches_Alt in Hn as [Hn | Hn]; read_match Hn;
      apply Matches_Cls in Hn as (c & -> & Hc & _);
      (split; [discriminate | simpl in Hc |- *; now rewrite Hc]). }
  do 7 eexists. split; [reflexivity|]. repeat split; try assumption; apply Hnum.
Qed.

Lemma time_occurs (code : str) : occurs re_time code <-> time_type_token code.
Proof.
  split.
  - intros (pre & m & post & cs & -> & M). unfold re_time in M.
    apply Matches_Alt in M as [M | M]; [|apply Matches_Alt in M as [M | M]];
      read_match M; exists pre, post.
    + now left.
    + right; left. rewrite <- ?app_assoc. do 2 eexists.
      split; [reflexivity|]. now repeat split.
    + now right; right.
  - intros (pre & post & [-> | [(w1 & w2 & -> & Hn1 & H1 & Hn2 & H2) | ->]]).
    + exists pre, (txt "time_t"), post, []. split; [reflexivity|].
      unfold re_time. apply M_AltL. build_match.
    + exists pre, (txt "unsigned" ++ w1 ++ txt "long" ++ w2 ++ txt "long"), post, [].
      split; [now rewrite <- ?app_assoc|].
      unfold re_time. apply M_AltR, M_AltL. build_match.
    + exists pre, (txt "uint64_t"), post, []. split; [reflexivity|].
      unfold re_time. apply M_AltR, M_AltR. build_match.
Qed.

Lemma ptr_time_occurs (code : str) : occurs re_ptr_time code <-> void_ptr_alias code.
Proof.
  split.
  - intros (pre & m & post & cs & -> & M). unfold re_ptr_time in M.
    read_match M. rewrite <- ?app_assoc.
    do 5 eexists. split; [reflexivity|]. now repeat split.
  - intros (pre & w1 & w2 & w3 & post & -> & Hne & H1 & H2 & H3).
    exists pre, (txt "typedef" ++ w1 ++ txt "void" ++ w2 ++ txt "*" ++ w3 ++ txt "timestamp_t"),
      post, [].
    split; [now rewrite <- ?app_assoc|].
    unfold re_ptr_time. build_match.
Qed.

Lemma no_compile_errors_silent (se : option str) :
  no_compile_errors se = true <-> stderr_silent se.
Proof.
  unfold stderr_silent. destruct se as [[|c s]|]; simpl; split; auto;
    try discriminate; intros [H | H]; discriminate.
Qed.

Lemma is_some_false {A : Type} (o : option A) : is_some o = false <-> o = None.
Proof. destruct o; simpl; split; congruence. Qed.

Lemma In_append_if (c : bool) (m x : str) (msgs : list str) :
  In x (append_if c m msgs) <-> In x msgs \/ (c = true /\ x = m).
Proof.
  unfold append_if. destruct c.
  - rewrite in_app_iff. simpl. intuition.
  - intuition discriminate.
Qed.

(** The response of phase archaeology, with its three tests named. *)
Lemma validate_archaeology (code : str) (se so : option str) :
  validate (ValidateRequest.Build (txt "archaeology") code se so) =
  let uses_time := is_some (re_search re_time code) in
  let not_ptr_time := negb (is_some (re_search re_ptr_time code)) in
  let emotion_ok :=
    is_some (re_search re_emotion_sized code) || is_some (re_search re_emotion_any code) in
  let passed := uses_time && not_ptr_time && no_compile_errors se in
  respond passed
    (append_if (negb emotion_ok) msg_emotion
       (append_if (negb not_ptr_time) msg_ptr_time
          (append_if (negb uses_time) msg_time [])))
    (if passed then roy_archaeology_ok else roy_archaeology_ko).
Proof. reflexivity. Qed.

Lemma emotion_ok_spec (code : str) :
  is_some (re_search re_emotion_sized code) || is_some (re_search re_emotion_any code) = true
  <-> sized_emotion_buffer code.
Proof.
  rewrite orb_true_iff, !search_occurs, emotion_any_occurs.
  split; [intros [H | H]; [now apply emotion_sized_occurs | exact H] | now right].
Qed.

Lemma msg_emotion_only (c1 c2 : bool) :
  ~ In msg_emotion (append_if c2 msg_ptr_time (append_if c1 msg_time [])).
Proof.
  rewrite !In_append_if. intros [[[] | [_ H]] | [_ H]]; vm_compute in H; discriminate.
Qed.

Lemma archaeology_emotion_message (code : str) (se so : option str) (r : ValidateResponse.t) :
  validate (ValidateRequest.Build (txt "archaeology") code se so) = Ok r ->
  (In msg_emotion (ValidateResponse.messages r) <-> ~ sized_emotion_buffer code).
Proof.
  rewrite validate_archaeology. cbv zeta. unfold respond. intros [= <-]. simpl.
  rewrite In_append_if, <- emotion_ok_spec.
  destruct (is_some (re_search re_emotion_sized code) || is_some (re_search re_emotion_any code));
    simpl; split.
  - intros [H | [H _]]; [now apply msg_emotion_only in H | discriminate].
  - intros H. now exfalso.
  - intros _. discriminate.
  - intros _. now right.
Qed.

Lemma archaeology_passed (code : str) (se so : option str) (r : ValidateResponse.t) :
  validate (ValidateRequest.Build (txt "archaeology") code se so) = Ok r ->
  (ValidateResponse.passed r = true <->
   time_type_token code /\ ~ void_ptr_alias code /\ stderr_silent se).
Proof.
  rewrite validate_archaeology. cbv zeta. unfold respond. intros [= <-]. simpl.
  rewrite !andb_true_iff, negb_true_iff, is_some_false, search_None_occurs,
    search_occurs, time_occurs, ptr_time_occurs, no_compile_errors_silent.
  tauto.
Qed.

Lemma validate_archaeology_Ok (code : str) (se so : option str) :
  exists r, validate (ValidateRequest.Build (txt "archaeology") code se so) = Ok r.
Proof. rewrite validate_archaeology. cbv zeta. unfold respond. eauto. Qed.

(** C6. In phase archaeology the verdict is: a wide time-capable type
    token is present, and no typedef makes timestamp_t a pointer to void,
    and the compiler stderr is empty or absent.  The emotion-buffer test
    puts its advisory message in the feedback when it fails and has no
    part in the verdict: two submissions that agree on the three
    conditions get the same verdict, and a submission can pass while
    carrying the advisory.  A source that contains
    [typedef void* timestamp_t;] fails. *)
Theorem C6_archaeology_verdict (code : str) (se so : option str) :
  exists r,
    validate (ValidateRequest.Build (txt "archaeology") code se so) = Ok r
    /\ (ValidateResponse.passed r = true <->
        time_type_token code /\ ~ void_ptr_alias code /\ stderr_silent se)
    /\ (In msg_emotion (ValidateResponse.messages r) <-> ~ sized_emotion_buffer code)
    /\ (forall code' se' so' r',
          validate (ValidateRequest.Build (txt "archaeology") code' se' so') = Ok r' ->
          (time_type_token code' <-> time_type_token code) ->
          (void_ptr_alias code' <-> void_ptr_alias code) ->
          (stderr_silent se' <-> stderr_silent se) ->
          ValidateResponse.passed r' = ValidateResponse.passed r)
    /\ (substr (txt "typedef void* timestamp_t;") code = true ->
        ValidateResponse.passed r = false)
    /\ validate (ValidateRequest.Build (txt "archaeology") (txt "time_t when;") None None)
       = Ok (ValidateResponse.Build true [msg_emotion] roy_archaeology_ok None).
Proof.
  destruct (validate_archaeology_Ok code se so) as [r Hr]. exists r.
  pose proof (archaeology_passed Hr) as Hp.
  split; [exact Hr|]. split; [exact Hp|].
  split; [exact (archaeology_emotion_message Hr)|].
  split; [|split].
  - intros code' se' so' r' Hr' Ht Ha Hs.
    pose proof (archaeology_passed Hr') as Hp'.
    destruct (ValidateResponse.passed r'), (ValidateResponse.passed r); try reflexivity.
    + symmetry. apply Hp. rewrite <- Ht, <- Ha, <- Hs. now apply Hp'.
    + apply Hp'. rewrite Ht, Ha, Hs. now apply Hp.
  - intros Hsub. apply substr_spec in Hsub as (pre & post & ->).
    destruct (ValidateResponse.passed r); [|reflexivity].
    exfalso. destruct Hp as [Hp _]. destruct (Hp eq_refl) as (_ & Hna & _).
    apply Hna. exists pre, (txt " "), [], (txt " "), (txt ";" ++ post).
    repeat split; discriminate.
  - reflexivity.
Qed.

(** C9. In phase archaeology the emotion-buffer test does not look at the
    size: the pattern that asks for a size from 20 to 39 accepts nothing
    the any-digits pattern does not accept, a declaration
    [char emotion[<n>]] satisfies the test for every decimal numeral n,
    and the advisory message is in the feedback exactly when the source
    declares no sized emotion buffer at all. *)
Theorem C9_emotion_size_agnostic (code : str) (se so : option str) :
  exists r,
    validate (ValidateRequest.Build (txt "archaeology") code se so) = Ok r
    /\ (is_some (re_search re_emotion_sized code) || is_some (re_search re_emotion_any code)
        = is_some (re_search re_emotion_any code))
    /\ (forall pre n post,
          numeral n ->
          code = pre ++ txt "char emotion[" ++ n ++ txt "]" ++ post ->
          ~ In msg_emotion (ValidateResponse.messages r))
    /\ (In msg_emotion (ValidateResponse.messages r) <-> ~ sized_emotion_buffer code).
Proof.
  destruct (validate_archaeology_Ok code se so) as [r Hr]. exists r.
  pose proof (archaeology_emotion_message Hr) as Hm.
  split; [exact Hr|]. split; [|split; [|exact Hm]].
  - destruct (is_some (re_search re_emotion_any code)) eqn:Ha;
      [now rewrite orb_true_r|].
    rewrite orb_false_r.
    destruct (is_some (re_search re_emotion_sized code)) eqn:Hs; [|reflexivity].
    apply search_occurs, emotion_sized_occurs, emotion_any_occurs, search_occurs in Hs.
    congruence.
  - intros pre n post Hn -> H. apply Hm in H. apply H.
    exists pre, (txt " "), [], [], n, [], post.
    repeat split; try apply Hn. discriminate.
Qed.

(** ** The pattern of phase choice *)

Lemma skip_blanks_split (s : str) :
  exists w, s = w ++ skip_blanks s /\ blanks w /\ no_leading_blank (skip_blanks s).
Proof.
  induction s as [|c s (w & E & Hw & Hn)]; simpl.
  - exists []. now repeat split.
  - destruct (is_space c) eqn:Hc.
    + exists (c :: w). simpl. rewrite <- E. repeat split; [|exact Hn].
      unfold blanks in *. simpl. now rewrite Hc.
    + exists []. simpl. now repeat split.
Qed.

Lemma skip_blanks_app (w x : str) :
  blanks w -> no_leading_blank x -> skip_blanks (w ++ x) = x.
Proof.
  unfold blanks. induction w as [|c w IH]; simpl; intros Hw Hx.
  - destruct x as [|c x]; [reflexivity|]. simpl in *. now rewrite Hx.
  - apply andb_true_iff in Hw as [Hc Hw]. simpl in Hc. rewrite Hc. now apply IH.
Qed.

Lemma token_no_blank (d : decision) (x : str) : no_leading_blank (token d ++ x).
Proof. now destruct d. Qed.

Lemma returns_at_spec (d : decision) (s : str) :
  returns_at d s = true <->
  exists w1 w2 post,
    s = txt "return" ++ w1 ++ token d ++ w2 ++ txt ";" ++ post
    /\ w1 <> [] /\ blanks w1 /\ blanks w2.
Proof.
  unfold returns_at. split.
  - intros H. apply andb_true_iff in H as [Hr H].
    apply starts_with_spec in Hr as [t ->].
    change 6 with (length (txt "return")) in H. rewrite skipn_exact in H.
    destruct t as [|c s1]; [discriminate|].
    apply andb_true_iff in H as [H Hsemi]. apply andb_true_iff in H as [Hc Htok].
    destruct (skip_blanks_split s1) as (w & E1 & Hw & _).
    apply starts_with_spec in Htok as [t2 Et2]. rewrite Et2 in Hsemi, E1.
    rewrite skipn_exact in Hsemi.
    destruct (skip_blanks_split t2) as (w2 & E2 & Hw2 & _).
    apply starts_with_spec in Hsemi as [post Epost]. rewrite Epost in E2.
    exists (c :: w), w2, post. rewrite E1, E2. simpl. repeat split.
    + discriminate.
    + unfold blanks in *. simpl. now rewrite Hc.
    + exact Hw2.
  - intros (w1 & w2 & post & -> & Hne & Hw1 & Hw2).
    rewrite starts_with_app. change 6 with (length (txt "return")).
    rewrite skipn_exact. destruct w1 as [|c w1]; [congruence|].
    unfold blanks in Hw1. simpl in Hw1. apply andb_true_iff in Hw1 as [Hc Hw1].
    cbn [app]. rewrite Hc.
    rewrite (skip_blanks_app _ Hw1 (token_no_blank d _)).
    rewrite starts_with_app, skipn_exact.
    rewrite (@skip_blanks_app w2 (txt ";" ++ post)); [|exact Hw2 | reflexivity].
    now rewrite starts_with_app.
Qed.

Lemma returns_at_unique (s : str) (d d' : decision) :
  returns_at d s = true -> returns_at d' s = true -> d = d'.
Proof.
  intros H H'. apply returns_at_spec in H as (w1 & w2 & post & E & _ & Hw1 & _).
  apply returns_at_spec in H' as (w1' & w2' & post' & E' & _ & Hw1' & _).
  rewrite E in E'. apply app_inv_head in E'.
  apply run_cut_unique with (f := is_space) in E' as [_ E']; try assumption;
    try apply token_no_blank.
  destruct d, d'; try reflexivity; discriminate.
Qed.

Lemma choice_match p m a cs cs' :
  Matches re_choice p m a cs cs' <->
  exists d w1 w2,
    m = txt "return" ++ w1 ++ token d ++ w2 ++ txt ";"
    /\ w1 <> [] /\ blanks w1 /\ blanks w2 /\ cs' = (1, token d) :: cs.
Proof.
  unfold re_choice. split.
  - intros M. read_match M.
    apply Matches_group_then in M as (tok & m2 & cs1 & -> & Ht & M).
    read_match M. rewrite <- ?app_assoc.
    apply Matches_Alt in Ht as [Ht | Ht]; read_match Ht; subst.
    + exists SAVE_ALL. do 2 eexists. split; [reflexivity|]. now repeat split.
    + exists PRESERVE_CONSCIOUSNESS. do 2 eexists. split; [reflexivity|]. now repeat split.
  - intros (d & w1 & w2 & -> & Hne & Hw1 & Hw2 & ->).
    build_match. apply Matches_group_then. exists (token d), (w2 ++ txt ";"), cs.
    split; [reflexivity|]. split.
    + destruct d; [apply M_AltL | apply M_AltR]; build_match.
    + build_match.
Qed.

Lemma choice_run_In (p : nat) (s : str) (st : mstate) :
  In st (run re_choice (start_at p s)) ->
  exists d, returns_at d s = true /\ group st 1 = Some (token d).
Proof.
  intros H. apply run_sound in H as (m & E & _ & M). simpl in E, M.
  apply choice_match in M as (d & w1 & w2 & -> & Hne & Hw1 & Hw2 & Hcs).
  exists d. split.
  - apply returns_at_spec. exists w1, w2, (rest st). rewrite E, <- ?app_assoc.
    now repeat split.
  - unfold group. rewrite Hcs. reflexivity.
Qed.

Lemma choice_run_nonempty (p : nat) (s : str) (d : decision) :
  returns_at d s = true -> run re_choice (start_at p s) <> [].
Proof.
  intros H. apply returns_at_spec in H as (w1 & w2 & post & -> & Hne & Hw1 & Hw2).
  assert (Matches re_choice p (txt "return" ++ w1 ++ token d ++ w2 ++ txt ";") post []
            [(1, token d)]) as M
    by (apply choice_match; exists d, w1, w2; now repeat split).
  apply run_complete in M. unfold start_at. rewrite <- ?app_assoc in M.
  intros E. rewrite E in M. destruct M.
Qed.

Lemma search_from_unfold (r : regex) (p : nat) (s : str) :
  search_from r p s =
  match run r (start_at p s) with
  | m :: _ => Some m
  | [] => match s with [] => None | _ :: s' => search_from r (S p) s' end
  end.
Proof. destruct s; reflexivity. Qed.

Lemma first_decision_unfold (s : str) :
  first_decision s =
  if returns_at SAVE_ALL s then Some SAVE_ALL
  else if returns_at PRESERVE_CONSCIOUSNESS s then Some PRESERVE_CONSCIOUSNESS
  else match s with [] => None | _ :: s' => first_decision s' end.
Proof. destruct s; reflexivity. Qed.

(** The search of phase choice finds the leftmost return statement, and
    its group is the token of that statement. *)
Lemma search_choice (s : str) :
  forall p,
    match search_from re_choice p s, first_decision s with
    | Some st, Some d => group st 1 = Some (token d)
    | None, None => True
    | _, _ => False
    end.
Proof.
  induction s as [|c s IH]; intros p;
    rewrite search_from_unfold, first_decision_unfold;
    (destruct (run re_choice (start_at p _)) as [|st l] eqn:E;
     [ destruct (returns_at SAVE_ALL _) eqn:H1;
       [ now apply (choice_run_nonempty p) in H1 |];
       destruct (returns_at PRESERVE_CONSCIOUSNESS _) eqn:H2;
       [ now apply (choice_run_nonempty p) in H2 |]
     | assert (In st (run re_choice (start_at p _))) as Hin by (rewrite E; now left);
       apply choice_run_In in Hin as (d & Hd & Hg);
       destruct (returns_at SAVE_ALL _) eqn:H1;
       [ now rewrite (@returns_at_unique _ _ _ H1 Hd) |];
       destruct (returns_at PRESERVE_CONSCIOUSNESS _) eqn:H2;
       [ now rewrite (@returns_at_unique _ _ _ H2 Hd) |];
       destruct d; congruence ]).
  - exact I.
  - apply IH.
Qed.

(** The response of phase choice, told from the leftmost return statement
    of the source text. *)
Lemma validate_choice (code : str) (se so : option str) :
  validate (ValidateRequest.Build (txt "choice") code se so) =
  match first_decision code with
  | Some d =>
      respond (no_compile_errors se)
        (append_if (negb (no_compile_errors se)) msg_decide []) (narrative d)
  | None => respond false [msg_decide] roy_choose
  end.
Proof.
  pose proof (search_choice code 0) as H.
  change (validate (ValidateRequest.Build (txt "choice") code se so)) with
    (let chose := re_search re_choice code in
     let passed := is_some chose && no_compile_errors se in
     respond passed (append_if (negb passed) msg_decide [])
       match chose with
       | Some m =>
           if match group m 1 with
              | Some w => str_eqb w (txt "SAVE_ALL")
              | None => false
              end
           then roy_save_all else roy_preserve
       | None => roy_choose
       end).
  unfold re_search. cbv zeta.
  destruct (search_from re_choice 0 code) as [st|], (first_decision code) as [d|];
    try contradiction; simpl.
  - rewrite H. now destruct d.
  - reflexivity.
Qed.

Lemma first_decision_Some (s : str) (d : decision) :
  first_decision s = Some d ->
  exists pre tl, s = pre ++ tl /\ returns_at d tl = true.
Proof.
  induction s as [|c s IH]; rewrite first_decision_unfold;
    (destruct (returns_at SAVE_ALL _) eqn:H1;
     [intros [= <-]; eexists [], _; split; [reflexivity | exact H1] |];
     destruct (returns_at PRESERVE_CONSCIOUSNESS _) eqn:H2;
     [intros [= <-]; eexists [], _; split; [reflexivity | exact H2] |]).
  - discriminate.
  - intros H. apply IH in H as (pre & tl & -> & H). now exists (c :: pre), tl.
Qed.

Lemma first_decision_found (pre tl : str) (d : decision) :
  returns_at d tl = true -> first_decision (pre ++ tl) <> None.
Proof.
  intros H. induction pre as [|c pre IH]; simpl app; rewrite first_decision_unfold.
  - destruct (returns_at SAVE_ALL tl) eqn:H1; [discriminate|].
    destruct (returns_at PRESERVE_CONSCIOUSNESS tl) eqn:H2; [discriminate|].
    destruct d; congruence.
  - destruct (returns_at SAVE_ALL _); [discriminate|].
    destruct (returns_at PRESERVE_CONSCIOUSNESS _); [discriminate | exact IH].
Qed.

(** A source in which a return statement is found holds its token. *)
Lemma first_decision_token (s : str) (d : decision) :
  first_decision s = Some d -> substr (token d) s = true.
Proof.
  intros H. apply first_decision_Some in H as (pre & tl & -> & H).
  apply returns_at_spec in H as (w1 & w2 & post & -> & _).
  apply substr_spec. exists (pre ++ txt "return" ++ w1), (w2 ++ txt ";" ++ post).
  now rewrite <- ?app_assoc.
Qed.

Lemma literal_statement (d : decision) (code : str) :
  substr (txt "return " ++ token d ++ txt ";") code = true ->
  first_decision code <> None.
Proof.
  intros H. apply substr_spec in H as (pre & post & ->).
  apply first_decision_found with (d := d). now destruct d.
Qed.

Lemma decision_when_other_absent (d d' : decision) (code : str) :
  d <> d' ->
  substr (txt "return " ++ token d ++ txt ";") code = true ->
  substr (token d') code = false ->
  first_decision code = Some d.
Proof.
  intros Hdd H Hno. apply literal_statement in H.
  destruct (first_decision code) as [d0|] eqn:E; [|congruence].
  apply first_decision_token in E.
  destruct d, d', d0; congruence.
Qed.

(** C7, as the code has it.  In phase choice, with the compiler stderr
    empty or absent, the leftmost statement that returns one of the two
    tokens decides: when it is [return SAVE_ALL;] the submission passes
    with the SAVE_ALL narrative, when it is
    [return PRESERVE_CONSCIOUSNESS;] it passes with the alternate
    narrative, and when the source has no such statement (as with
    [return 0;]) it fails with the third narrative and exactly one
    feedback message.  A source that contains [return SAVE_ALL;] and
    nowhere the other token is of the first kind, and so on; a source
    that contains neither token is of the third kind. *)
Theorem C7_choice_leftmost_statement (code : str) (se so : option str) :
  stderr_silent se ->
  let result := validate (ValidateRequest.Build (txt "choice") code se so) in
  (first_decision code = Some SAVE_ALL ->
   result = Ok (ValidateResponse.Build true [] roy_save_all None))
  /\ (first_decision code = Some PRESERVE_CONSCIOUSNESS ->
      result = Ok (ValidateResponse.Build true [] roy_preserve None))
  /\ (first_decision code = None ->
      result = Ok (ValidateResponse.Build false [msg_decide] roy_choose (Some msg_decide)))
  /\ (substr (txt "return SAVE_ALL;") code = true ->
      substr (txt "PRESERVE_CONSCIOUSNESS") code = false ->
      first_decision code = Some SAVE_ALL)
  /\ (substr (txt "return PRESERVE_CONSCIOUSNESS;") code = true ->
      substr (txt "SAVE_ALL") code = false ->
      first_decision code = Some PRESERVE_CONSCIOUSNESS)
  /\ (substr (txt "SAVE_ALL") code = false ->
      substr (txt "PRESERVE_CONSCIOUSNESS") code = false ->
      first_decision code = None).
Proof.
  intros Hs result. subst result. rewrite validate_choice.
  apply no_compile_errors_silent in Hs. rewrite Hs.
  repeat split.
  - now intros ->.
  - now intros ->.
  - now intros ->.
  - intros H Hno. now apply (@decision_when_other_absent SAVE_ALL PRESERVE_CONSCIOUSNESS).
  - intros H Hno. now apply (@decision_when_other_absent PRESERVE_CONSCIOUSNESS SAVE_ALL).
  - intros H1 H2. destruct (first_decision code) as [d|] eqn:E; [|reflexivity].
    apply first_decision_token in E. destruct d; unfold token in E; congruence.
Qed.

Lemma C7_choice_leftmost_statement_witness :
  validate (ValidateRequest.Build (txt "choice")
              (txt "enum Decision decide(){ return SAVE_ALL; }") None None)
  = Ok (ValidateResponse.Build true [] roy_save_all None).
Proof.
  apply (C7_choice_leftmost_statement
           (txt "enum Decision decide(){ return SAVE_ALL; }") (se := None) None).
  - left. reflexivity.
  - reflexivity.
Defined.

(** The claim C7 as it is worded fails on a source that holds both
    statements: the source below contains [return SAVE_ALL;], and the
    narrative is the alternate one. *)
Lemma C7_counterexample :
  let code := txt "if (x) return PRESERVE_CONSCIOUSNESS; return SAVE_ALL;" in
  substr (txt "return SAVE_ALL;") code = true
  /\ validate (ValidateRequest.Build (txt "choice") code None None)
     = Ok (ValidateResponse.Build true [] roy_preserve None)
  /\ roy_preserve <> roy_save_all.
Proof.
  repeat split. intros H. vm_compute in H. discriminate.
Qed.



(** * The phase rule engine: rejection and feedback *)

(** C8. For every phase id outside reality, archaeology, consciousness
    and choice, validate raises the client error 400, Unknown phase, and
    gives no response; no predicate is evaluated, since the outcome is
    the same whatever the search function is and whatever the source
    text and the compiler stderr are. *)
Theorem C8_unknown_phase_rejected
        (search : regex -> str -> option mstate) (pid code : str) (se so : option str) :
  known_phase pid = false ->
  validate_with search (ValidateRequest.Build pid code se so)
  = HTTPException 400 (txt "Unknown phase")
  /\ validate (ValidateRequest.Build pid code se so)
     = HTTPException 400 (txt "Unknown phase").
Proof.
  unfold known_phase. intros H.
  apply orb_false_iff in H as [H H4]. apply orb_false_iff in H as [H H3].
  apply orb_false_iff in H as [H1 H2].
  unfold validate, validate_with. simpl ValidateRequest.phase_id.
  now rewrite H1, H2, H3, H4.
Qed.

Lemma C8_unknown_phase_rejected_witness :
  validate_with (fun _ _ => None)
    (ValidateRequest.Build (txt "dreams") (txt "return SAVE_ALL;") None None)
  = HTTPException 400 (txt "Unknown phase")
  /\ validate (ValidateRequest.Build (txt "dreams") (txt "return SAVE_ALL;") None None)
     = HTTPException 400 (txt "Unknown phase").
Proof.
  apply C8_unknown_phase_rejected. reflexivity.
Defined.

Lemma validate_reality (code : str) (se so : option str) :
  validate (ValidateRequest.Build (txt "reality") code se so) =
  let has_gravity := is_some (re_search re_gravity code) in
  let loop_fixed := is_some (re_search re_loop code) in
  let passed := has_gravity && loop_fixed && no_compile_errors se in
  respond passed
    (append_if (negb loop_fixed) msg_loop (append_if (negb has_gravity) msg_gravity []))
    (if passed then roy_reality_ok else roy_reality_ko).
Proof. reflexivity. Qed.

Lemma validate_consciousness (code : str) (se so : option str) :
  validate (ValidateRequest.Build (txt "consciousness") code se so) =
  let frees := is_some (re_search re_free code) in
  let returns_ptr := is_some (re_search re_remember code) in
  let passed := frees && returns_ptr && no_compile_errors se in
  respond passed (append_if (negb frees) msg_free [])
    (if passed then roy_consciousness_ok else roy_consciousness_ko).
Proof. reflexivity. Qed.

Lemma validate_choice_search (code : str) (se so : option str) :
  exists roy_line,
    validate (ValidateRequest.Build (txt "choice") code se so) =
    let passed := is_some (re_search re_choice code) && no_compile_errors se in
    respond passed (append_if (negb passed) msg_decide []) roy_line.
Proof. eexists. reflexivity. Qed.

(** C2, as the code has it.  For every recognised phase and every input,
    the feedback is the list of the messages of the failing rows of the
    message table of the phase, one message for each failing row, in the
    order of the table.  The rows are: for reality the gravity and the
    loop test; for archaeology the clock type, the alias and the emotion
    buffer test; for consciousness the free test; for choice the verdict.
    A compiler stderr that is not empty has no row outside choice. *)
Theorem C2_feedback_from_message_table (pid code : str) (se so : option str) :
  known_phase pid = true ->
  exists r,
    validate (ValidateRequest.Build pid code se so) = Ok r
    /\ ValidateResponse.messages r = failing_messages (message_rows pid code se).
Proof.
  unfold known_phase. rewrite !orb_true_iff, !str_eqb_eq.
  intros [[[-> | ->] | ->] | ->].
  - rewrite validate_reality. cbv zeta. unfold respond. eexists. split; [reflexivity|].
    change (message_rows (txt "reality") code se) with
      [(is_some (re_search re_gravity code), msg_gravity);
       (is_some (re_search re_loop code), msg_loop)].
    simpl. now destruct (is_some (re_search re_gravity code)),
             (is_some (re_search re_loop code)).
  - rewrite validate_archaeology. cbv zeta. unfold respond. eexists. split; [reflexivity|].
    change (message_rows (txt "archaeology") code se) with
      [(is_some (re_search re_time code), msg_time);
       (negb (is_some (re_search re_ptr_time code)), msg_ptr_time);
       (is_some (re_search re_emotion_sized code) || is_some (re_search re_emotion_any code),
        msg_emotion)].
    simpl. now destruct (is_some (re_search re_time code)),
             (is_some (re_search re_ptr_time code)),
             (is_some (re_search re_emotion_sized code) || is_some (re_search re_emotion_any code)).
  - rewrite validate_consciousness. cbv zeta. unfold respond. eexists. split; [reflexivity|].
    change (message_rows (txt "consciousness") code se) with
      [(is_some (re_search re_free code), msg_free)].
    simpl. now destruct (is_some (re_search re_free code)).
  - destruct (validate_choice_search code se so) as [roy_line ->].
    cbv zeta. unfold respond. eexists. split; [reflexivity|].
    change (message_rows (txt "choice") code se) with
      [(is_some (re_search re_choice code) && no_compile_errors se, msg_decide)].
    simpl. now destruct (is_some (re_search re_choice code) && no_compile_errors se).
Qed.

Lemma C2_feedback_from_message_table_witness :
  exists r,
    validate (ValidateRequest.Build (txt "reality") (txt "float gravity = 9.8;") None None)
    = Ok r
    /\ ValidateResponse.messages r
       = failing_messages (message_rows (txt "reality") (txt "float gravity = 9.8;") None).
Proof.
  apply C2_feedback_from_message_table. reflexivity.
Defined.

(** The claim C2 as it is worded fails in phase consciousness: on the
    source below the second textual predicate of the phase, the
    declaration of remember, fails, and the feedback is empty. *)
Lemma C2_counterexample :
  let code := txt "free(m);" in
  source_predicates (txt "consciousness") code = [true; false]
  /\ validate (ValidateRequest.Build (txt "consciousness") code None None)
     = Ok (ValidateResponse.Build false [] roy_consciousness_ko None).
Proof. split; reflexivity. Qed.

(** * The compile-and-run pipeline *)

(** C1, the part the code contradicts.  When the compiler exceeds its
    bound the response carries no diagnostics and no run is attempted,
    and its timed_out flag is false, where the claim has it true. *)
Theorem C1_compile_timeout_not_flagged
        (spawn : filesystem -> list str -> option str -> Z -> proc_result * filesystem)
        (workdir : str) (files : filesystem) (req : CompileRequest.t) (fs' : filesystem) :
  spawn (with_source workdir files req) (compile_cmd workdir req) None 5%Z
  = (TimeoutExpired, fs') ->
  let resp := compile_and_run spawn workdir files req in
  resp = compile_timeout_response
  /\ CompileResponse.timed_out resp = false
  /\ CompileResponse.diagnostics resp = []
  /\ CompileResponse.run_attempted resp = false.
Proof.
  intros H resp. subst resp.
  unfold compile_and_run, compile_and_run_with, safe_run. rewrite H.
  repeat split.
Qed.

Lemma C1_compile_timeout_not_flagged_witness :
  let resp :=
    compile_and_run stalled_machine (txt "/tmp/roy-1a2b3c4d-x") []
      (CompileRequest.Build (txt "int main(void){return 0;}") [] None (txt "c11") (txt "-O2")) in
  resp = compile_timeout_response
  /\ CompileResponse.timed_out resp = false
  /\ CompileResponse.diagnostics resp = []
  /\ CompileResponse.run_attempted resp = false.
Proof.
  apply (@C1_compile_timeout_not_flagged stalled_machine (txt "/tmp/roy-1a2b3c4d-x") []
           (CompileRequest.Build (txt "int main(void){return 0;}") [] None (txt "c11")
              (txt "-O2"))
           ((txt "/tmp/roy-1a2b3c4d-x/main.c", txt "int main(void){return 0;}") :: [])).
  reflexivity.
Defined.

(** The rest of the claim holds.  When the compiled program exceeds its
    bound the response is flagged, with an empty stdout, the fixed stderr
    marker and no exit code. *)
Lemma run_timeout_response
      (spawn : filesystem -> list str -> option str -> Z -> proc_result * filesystem)
      (workdir : str) (files : filesystem) (req : CompileRequest.t)
      (out err : str) (fs1 fs2 : filesystem) :
  spawn (with_source workdir files req) (compile_cmd workdir req) None 5%Z
  = (CompletedProcess 0 out err, fs1) ->
  spawn fs1 (run_cmd shlex_quote (bin_path workdir) (CompileRequest.args req))
        (CompileRequest.stdin req) 2%Z
  = (TimeoutExpired, fs2) ->
  compile_and_run spawn workdir files req
  = CompileResponse.Build true err true false [] (txt "Execution timed out") None true
      (parse_diagnostics err).
Proof.
  intros H1 H2. unfold compile_and_run, compile_and_run_with, safe_run.
  rewrite H1. simpl. now rewrite H2.
Qed.

(** A response is flagged as timed out only when the program was run. *)
Lemma timed_out_only_after_run
      (spawn : filesystem -> list str -> option str -> Z -> proc_result * filesystem)
      (workdir : str) (files : filesystem) (req : CompileRequest.t) :
  let resp := compile_and_run spawn workdir files req in
  CompileResponse.timed_out resp = true ->
  CompileResponse.compile_success resp = true
  /\ CompileResponse.run_attempted resp = true
  /\ CompileResponse.run_stdout resp = []
  /\ CompileResponse.run_stderr resp = txt "Execution timed out"
  /\ CompileResponse.exit_code resp = None.
Proof.
  unfold compile_and_run, compile_and_run_with, safe_run. cbv zeta.
  destruct (spawn (with_source workdir files req) (compile_cmd workdir req) None 5%Z)
    as [[|rc out err] fs1]; [discriminate|].
  destruct (negb (rc =? 0)%Z); [discriminate|].
  destruct (spawn fs1 _ _ 2%Z) as [[|rc2 out2 err2] fs2]; [|discriminate].
  now repeat split.
Qed.

(** ** Quoting the arguments *)

Lemma replace_quote_length (new : str) (s : str) :
  length new >= 1 -> length (replace_go [QUOTE] new 0 s) >= length s.
Proof.
  intros Hn. induction s as [|c s IH]; [simpl; lia|].
  cbn -[Ascii.eqb QUOTE]. destruct (Ascii.eqb QUOTE c); cbn [andb].
  - rewrite length_app. lia.
  - simpl. lia.
Qed.

Lemma shlex_quote_unchanged (a : str) :
  shlex_quote a = a <-> safe_arg a = true.
Proof.
  unfold shlex_quote, safe_arg. destruct a as [|c a]; [simpl; split; discriminate|].
  cbn [truthy negb andb].
  destruct (existsb (fun c0 => negb (is_shell_safe c0)) (c :: a)) eqn:E; cbn [negb].
  - split.
    + intros H. apply (f_equal (@length ascii)) in H.
      rewrite !length_app in H. cbn [str_replace] in H.
      pose proof (@replace_quote_length [QUOTE; DQUOTE; QUOTE; DQUOTE; QUOTE] (c :: a)) as Hl.
      simpl in Hl, H. lia.
    + intros H. exfalso. apply existsb_exists in E as (x & Hx & Hsafe).
      rewrite forallb_forall in H. rewrite (H x Hx) in Hsafe. discriminate.
  - split; [intros _ | reflexivity].
    apply forallb_forall. intros x Hx.
    destruct (is_shell_safe x) eqn:Hs; [reflexivity|]. exfalso.
    assert (existsb (fun c0 => negb (is_shell_safe c0)) (c :: a) = true)
      by (apply existsb_exists; exists x; now rewrite Hs).
    congruence.
Qed.

Lemma map_quote_unchanged (args : list str) :
  map shlex_quote args = args <-> forallb safe_arg args = true.
Proof.
  induction args as [|a args IH]; simpl; [now split|].
  rewrite andb_true_iff, <- IH, <- shlex_quote_unchanged. split.
  - intros [= H1 H2]. now split.
  - intros [-> ->]. reflexivity.
Qed.

(** The argument vector with the arguments quoted is the one with the
    arguments handed over as they are exactly when every argument is
    non-empty and made of the characters [shlex.quote] holds for safe; on
    such argument lists the two endpoints build the same response. *)
Lemma quoting_unseen_iff_safe :
  (forall (program : str) (args : list str),
      run_cmd shlex_quote program args = run_cmd (fun a => a) program args
      <-> forallb safe_arg args = true)
  /\ (forall spawn workdir files (req : CompileRequest.t),
         forallb safe_arg (CompileRequest.args req) = true ->
         compile_and_run spawn workdir files req
         = compile_and_run_positional spawn workdir files req).
Proof.
  split.
  - intros program args. unfold run_cmd. rewrite map_id, <- map_quote_unchanged.
    split; [intros [= H]; exact H | now intros ->].
  - intros spawn workdir files req H.
    unfold compile_and_run, compile_and_run_positional, compile_and_run_with, run_cmd.
    apply map_quote_unchanged in H. now rewrite H, map_id.
Qed.

(** C3, the code against the claim.  The request with the one argument
    [hello world]: the code writes the argument into the argument vector
    wrapped in single quotes, where handing it over as it is gives the
    argument itself, and a program that prints its arguments shows the
    quotes in the response.  The same holds of every argument list with
    an argument that is empty or holds a character [shlex.quote] does not
    hold for safe: its argument vector is not the one of the arguments as
    they are. *)
Theorem C3_quoting_reaches_the_child :
  (let args := [txt "hello world"] in
   let req := CompileRequest.Build (txt "int main(void){return 0;}") args None
                (txt "c11") (txt "-O2") in
   run_cmd shlex_quote (txt "/tmp/w/a.out") args = [txt "/tmp/w/a.out"; txt "'hello world'"]
   /\ run_cmd (fun a => a) (txt "/tmp/w/a.out") args = [txt "/tmp/w/a.out"; txt "hello world"]
   /\ CompileResponse.run_stdout (compile_and_run echo_machine (txt "/tmp/w") [] req)
      = txt "'hello world'"
   /\ CompileResponse.run_stdout (compile_and_run_positional echo_machine (txt "/tmp/w") [] req)
      = txt "hello world")
  /\ (forall (program : str) (args : list str),
         forallb safe_arg args = false ->
         run_cmd shlex_quote program args <> run_cmd (fun a => a) program args).
Proof.
  split; [repeat split|].
  intros program args Hs H. unfold run_cmd in H. rewrite map_id in H.
  injection H as H. apply map_quote_unchanged in H. congruence.
Qed.

(** * Replacing a text by another *)

Lemma replace_go_skip (old new m t : str) :
  replace_go old new (length m) (m ++ t) = replace_go old new 0 t.
Proof. induction m as [|c m IH]; [reflexivity | exact IH]. Qed.

Lemma replace_go_hit (c : ascii) (old new t : str) :
  replace_go (c :: old) new 0 ((c :: old) ++ t)
  = new ++ replace_go (c :: old) new 0 t.
Proof.
  pose proof (starts_with_app (c :: old) t) as H. cbn [app] in H.
  cbn [replace_go app]. rewrite H.
  cbn [length Nat.sub]. rewrite Nat.sub_0_r. now rewrite replace_go_skip.
Qed.

Lemma replace_go_miss (old new : str) (c : ascii) (s : str) :
  starts_with old (c :: s) = false ->
  replace_go old new 0 (c :: s) = c :: replace_go old new 0 s.
Proof. intros H. cbn [replace_go]. now rewrite H. Qed.

Lemma substr_cons (n : str) (c : ascii) (h : str) :
  substr n (c :: h) = starts_with n (c :: h) || substr n h.
Proof. reflexivity. Qed.

Lemma substr_suffix_false (n a b : str) :
  substr n (a ++ b) = false -> substr n b = false.
Proof.
  intros H. destruct (substr n b) eqn:E; [|reflexivity].
  apply substr_spec in E as (pre & post & ->).
  assert (substr n (a ++ pre ++ n ++ post) = true) as H'
    by (apply substr_spec; exists (a ++ pre), post; now rewrite <- app_assoc).
  congruence.
Qed.

Lemma substr_starts_false (n h : str) :
  substr n h = false -> starts_with n h = false.
Proof.
  destruct h; cbn [substr]; intros H; apply orb_false_iff in H; apply H.
Qed.

(** Replacing [9.81] by [9.8]: a part of the result that holds no 9 was
    in the text already. *)
Lemma replaced_prefix (p s : str) :
  forallb (fun c => negb (Ascii.eqb "9"%char c)) p = true ->
  starts_with p (replace_go (txt "9.81") (txt "9.8") 0 s) = true ->
  starts_with p s = true.
Proof.
  revert s. induction p as [|a p IH]; intros s Hp H; [reflexivity|].
  cbn [forallb] in Hp. apply andb_true_iff in Hp as [Ha Hp].
  destruct s as [|c s]; [discriminate H|].
  destruct (starts_with (txt "9.81") (c :: s)) eqn:Hs.
  - apply starts_with_spec in Hs as [t Ht]. rewrite Ht in H.
    rewrite (@replace_go_hit "9"%char (txt ".81")) in H.
    cbn [txt list_ascii_of_string app starts_with] in H.
    apply andb_true_iff in H as [H _]. apply Ascii.eqb_eq in H. subst a.
    discriminate Ha.
  - rewrite (@replace_go_miss _ _ _ _ Hs) in H. cbn [starts_with] in H |- *.
    apply andb_true_iff in H as [-> H]. now rewrite (IH s Hp H).
Qed.

(** After the replacement, a [9.81] at the head of the result comes from
    a [9.811] at the head of the text. *)
Lemma replaced_head (s : str) :
  starts_with (txt "9.81") (replace_go (txt "9.81") (txt "9.8") 0 s) = true ->
  starts_with (txt "9.811") s = true.
Proof.
  intros H. destruct s as [|c s]; [discriminate H|].
  destruct (starts_with (txt "9.81") (c :: s)) eqn:Hs.
  - apply starts_with_spec in Hs as [t Ht]. rewrite Ht in H |- *.
    rewrite (@replace_go_hit "9"%char (txt ".81")) in H.
    assert (starts_with (txt "1") (replace_go (txt "9.81") (txt "9.8") 0 t) = true) as H1
      by exact H.
    apply replaced_prefix in H1; [|reflexivity].
    apply starts_with_spec in H1 as [u ->]. reflexivity.
  - rewrite (@replace_go_miss _ _ _ _ Hs) in H.
    assert (Ascii.eqb "9"%char c = true
            /\ starts_with (txt ".81") (replace_go (txt "9.81") (txt "9.8") 0 s) = true)
      as [Hc H1] by (apply andb_true_iff; exact H).
    apply replaced_prefix in H1; [|reflexivity].
    apply Ascii.eqb_eq in Hc. subst c.
    assert (starts_with (txt "9.81") ("9"%char :: s) = true) by exact H1.
    congruence.
Qed.

Lemma replaced_no_981_bounded (n : nat) :
  forall s,
    length s <= n ->
    substr (txt "9.811") s = false ->
    substr (txt "9.81") (replace_go (txt "9.81") (txt "9.8") 0 s) = false.
Proof.
  induction n as [|n IH]; intros s Hl Hs.
  - destruct s; [reflexivity | simpl in Hl; lia].
  - destruct s as [|c s]; [reflexivity|].
    pose proof (@substr_starts_false _ _ Hs) as Hhead.
    assert (starts_with (txt "9.81") (replace_go (txt "9.81") (txt "9.8") 0 (c :: s)) = false)
      as Hr
      by (destruct (starts_with (txt "9.81") (replace_go _ _ 0 (c :: s))) eqn:E;
          [apply replaced_head in E; congruence | reflexivity]).
    destruct (starts_with (txt "9.81") (c :: s)) eqn:Hc.
    + apply starts_with_spec in Hc as [t Ht]. rewrite Ht in Hr, Hs |- *.
      rewrite (@replace_go_hit "9"%char (txt ".81")) in Hr |- *.
      assert (length t <= n)
        by (apply (f_equal (@length ascii)) in Ht; rewrite length_app in Ht;
            simpl in Ht, Hl; lia).
      apply substr_suffix_false in Hs.
      change (txt "9.8" ++ ?x) with ("9"%char :: "."%char :: "8"%char :: x) in Hr |- *.
      rewrite substr_cons, Hr, !substr_cons. cbn [orb].
      change (starts_with (txt "9.81") ("."%char :: ?x)) with false.
      now apply IH.
    + rewrite (@replace_go_miss _ _ _ _ Hc) in Hr |- *.
      rewrite substr_cons, Hr. cbn [orb].
      apply IH; [simpl in Hl; lia|].
      now apply (@substr_suffix_false _ [c] s).
Qed.

(** When no [9.81] of the text is followed by a further 1, none is left
    once every [9.81] has been replaced by [9.8]. *)
Lemma replaced_no_981 (s : str) :
  substr (txt "9.811") s = false ->
  substr (txt "9.81") (str_replace (txt "9.81") (txt "9.8") s) = false.
Proof. apply (@replaced_no_981_bounded (length s)). lia. Qed.

(** * Phase reality *)

Lemma gravity_found (code : str) :
  substr (txt "float gravity = 9.81;") code = true ->
  is_some (re_search re_gravity code) = true.
Proof.
  intros H. apply substr_spec in H as (pre & post & ->). apply search_occurs.
  exists (pre ++ txt "float "),
    (txt "gravity" ++ txt " " ++ txt "=" ++ txt " " ++ txt "9.81"), (txt ";" ++ post), [].
  split; [now rewrite <- app_assoc|]. unfold re_gravity. build_match.
Qed.

Lemma loop_found (code : str) :
  substr (txt "for (int i = 0; i < 10; i++)") code = true ->
  is_some (re_search re_loop code) = true.
Proof.
  intros H. apply substr_spec in H as (pre & post & ->). apply search_occurs.
  exists pre,
    (txt "for" ++ txt " " ++ txt "(" ++ [] ++ txt "int" ++ txt " " ++ txt "i" ++ txt " "
     ++ txt "=" ++ txt " " ++ txt "0" ++ [] ++ txt ";" ++ txt " " ++ txt "i" ++ txt " "
     ++ txt "<" ++ txt " " ++ txt "10" ++ [] ++ txt ";"),
    (txt " i++)" ++ post), [].
  split; [reflexivity|]. unfold re_loop. build_match.
Qed.

(** The gravity test asks for the text [9.81]. *)
Lemma gravity_needs_981 (code : str) :
  substr (txt "9.81") code = false ->
  is_some (re_search re_gravity code) = false.
Proof.
  intros H. destruct (is_some (re_search re_gravity code)) eqn:E; [|reflexivity].
  apply search_occurs in E as (pre & m & post & cs & -> & M).
  unfold re_gravity in M. read_match M. rewrite <- ?app_assoc in H.
  repeat
    match type of H with
    | substr _ (?a ++ ?b) = false =>
        lazymatch a with
        | txt "9.81" => fail
        | _ => apply (@substr_suffix_false _ a b) in H
        end
    end.
  rewrite (proj2 (substr_spec _ _)) in H; [discriminate|].
  now exists [], post.
Qed.

(** C5, as the code has it.  In phase reality, a source that contains
    [float gravity = 9.81;] and [for (int i = 0; i < 10; i++)], validated
    with a compiler stderr that is empty or absent, passes.  The same
    source with every 9.81 replaced by 9.8 fails, with the
    gravity-precision message as the first message and as the hint,
    provided no 9.81 of the source is followed by a further 1, so that
    the replacement leaves no 9.81 behind. *)
Theorem C5_reality_gravity (code : str) (se so : option str) :
  stderr_silent se ->
  substr (txt "float gravity = 9.81;") code = true ->
  substr (txt "for (int i = 0; i < 10; i++)") code = true ->
  validate (ValidateRequest.Build (txt "reality") code se so)
  = Ok (ValidateResponse.Build true [] roy_reality_ok None)
  /\ (substr (txt "9.811") code = false ->
      exists r,
        validate (ValidateRequest.Build (txt "reality")
                    (str_replace (txt "9.81") (txt "9.8") code) se so) = Ok r
        /\ ValidateResponse.passed r = false
        /\ hd_error (ValidateResponse.messages r) = Some msg_gravity
        /\ ValidateResponse.progress_hint r = Some msg_gravity).
Proof.
  intros Hs Hg Hl. apply no_compile_errors_silent in Hs. split.
  - rewrite validate_reality, (gravity_found _ Hg), (loop_found _ Hl), Hs. reflexivity.
  - intros H. apply replaced_no_981, gravity_needs_981 in H.
    rewrite validate_reality, H. cbv zeta. unfold respond. eexists. split; [reflexivity|].
    cbn [ValidateResponse.passed ValidateResponse.messages ValidateResponse.progress_hint
         andb negb append_if app].
    destruct (is_some (re_search re_loop _)); repeat split.
Qed.

Lemma C5_reality_gravity_witness :
  let code := txt "int main(void){ float gravity = 9.81; for (int i = 0; i < 10; i++) {} }" in
  validate (ValidateRequest.Build (txt "reality") code None None)
  = Ok (ValidateResponse.Build true [] roy_reality_ok None)
  /\ (substr (txt "9.811") code = false ->
      exists r,
        validate (ValidateRequest.Build (txt "reality")
                    (str_replace (txt "9.81") (txt "9.8") code) None None) = Ok r
        /\ ValidateResponse.passed r = false
        /\ hd_error (ValidateResponse.messages r) = Some msg_gravity
        /\ ValidateResponse.progress_hint r = Some msg_gravity).
Proof.
  apply (@C5_reality_gravity
           (txt "int main(void){ float gravity = 9.81; for (int i = 0; i < 10; i++) {} }")
           None None).
  - left. reflexivity.
  - reflexivity.
  - reflexivity.
Defined.

(** The claim C5 as it is worded fails on a source in which a 9.81 is
    followed by a further 1: the replacement turns 9.811 into 9.81, and
    the result still passes. *)
Lemma C5_counterexample :
  let code :=
    txt "float gravity = 9.81; for (int i = 0; i < 10; i++) { gravity = 9.811; }" in
  substr (txt "float gravity = 9.81;") code = true
  /\ substr (txt "for (int i = 0; i < 10; i++)") code = true
  /\ str_replace (txt "9.81") (txt "9.8") code
     = txt "float gravity = 9.8; for (int i = 0; i < 10; i++) { gravity = 9.81; }"
  /\ validate (ValidateRequest.Build (txt "reality")
                 (str_replace (txt "9.81") (txt "9.8") code) None None)
     = Ok (ValidateResponse.Build true [] roy_reality_ok None).
Proof. repeat split. Qed.

(** * parse_diagnostics *)

(** ** Lines *)

Lemma splitlines_go_lines (s : str) :
  forall cur after_cr ln,
    forallb (fun c => negb (is_linebreak c)) cur = true ->
    In ln (splitlines_go cur after_cr s) ->
    forallb (fun c => negb (is_linebreak c)) ln = true.
Proof.
  induction s as [|c s IH]; intros cur after_cr ln Hcur H; cbn [splitlines_go] in H.
  - destruct cur; [destruct H | destruct H as [<- | []]; exact Hcur].
  - destruct (after_cr && Ascii.eqb c LF).
    + now apply (IH [] false).
    + destruct (is_linebreak c) eqn:Hc.
      * destruct H as [<- | H]; [exact Hcur | now apply (IH [] (Ascii.eqb c CR))].
      * apply (IH (cur ++ [c]) false); [|exact H].
        rewrite forallb_app, Hcur. cbn. now rewrite Hc.
Qed.

(** The lines [splitlines] gives hold no line boundary; the dot of a
    pattern matches every character of such a line. *)
Lemma splitlines_dot (s ln : str) : In ln (splitlines s) -> all_in Dot ln = true.
Proof.
  intros H. apply splitlines_go_lines in H; [|reflexivity].
  unfold all_in. rewrite forallb_forall in *. intros c Hc. specialize (H c Hc).
  cbn [in_cset]. unfold is_dot.
  destruct (Ascii.eqb c LF) eqn:E; [|reflexivity].
  apply Ascii.eqb_eq in E. subst c. discriminate H.
Qed.

Lemma diag_step_app (diags : list Diagnostic) (ln : str) :
  diag_step diags ln = diags ++ line_diags ln.
Proof.
  unfold line_diags, diag_step. destruct (re_match diag_pattern ln) as [m|];
    [|now rewrite app_nil_r].
  destruct (group m 1), (group m 2), (group m 3), (group m 4), (group m 5);
    now rewrite ?app_nil_r.
Qed.

(** The loop of [parse_diagnostics] puts the diagnostics of the lines one
    after the other, in the order of the lines. *)
Lemma parse_diagnostics_lines (stderr : str) :
  parse_diagnostics stderr = flat_map line_diags (splitlines stderr).
Proof.
  unfold parse_diagnostics.
  assert (forall lines acc, fold_left diag_step lines acc = acc ++ flat_map line_diags lines)
    as H.
  { induction lines as [|ln lines IH]; intros acc; simpl.
    - now rewrite app_nil_r.
    - now rewrite IH, diag_step_app, app_assoc. }
  apply H.
Qed.

(** ** The order in which the matcher tries *)

Lemma flat_map_map {A B C : Type} (g : A -> B) (f : B -> list C) (l : list A) :
  flat_map f (map g l) = flat_map (fun x => f (g x)) l.
Proof. induction l as [|a l IH]; simpl; [reflexivity | now rewrite IH]. Qed.

Lemma flat_map_flat_map {A B C : Type} (g : A -> list B) (f : B -> list C) (l : list A) :
  flat_map f (flat_map g l) = flat_map (fun x => flat_map f (g x)) l.
Proof.
  induction l as [|a l IH]; simpl; [reflexivity|]. now rewrite flat_map_app, IH.
Qed.

Lemma hd_flat_map_In {A B : Type} (f : A -> list B) (l : list A) (b : B) :
  hd_error (flat_map f l) = Some b ->
  exists a, In a l /\ hd_error (f a) = Some b.
Proof.
  induction l as [|a l IH]; simpl; [discriminate|].
  destruct (f a) as [|b' bs] eqn:E; simpl.
  - intros H. apply IH in H as (a' & Hin & H). exists a'. now split; [right|].
  - intros [= <-]. exists a. split; [now left | now rewrite E].
Qed.

Lemma flat_map_nil {A B : Type} (f : A -> list B) (l : list A) :
  flat_map f l = [] <-> forall a, In a l -> f a = [].
Proof.
  induction l as [|a l IH]; simpl.
  - split; [intros _ a [] | reflexivity].
  - split.
    + intros H. apply app_eq_nil in H as [Ha Hl]. intros x [<- | Hx]; [exact Ha|].
      now apply IH.
    + intros H. rewrite (H a (or_introl eq_refl)). simpl. apply IH.
      intros x Hx. apply H. now right.
Qed.

(** A lazy repetition hands over the shortest run first: what comes out
    first comes from a run such that no shorter one leads anywhere. *)
Lemma lazy_first {B : Type} (f : nat * str -> list B) (k : cset) (s : str) :
  forall n b,
    hd_error (flat_map f (star_lazy k n s)) = Some b ->
    exists w s',
      s = w ++ s' /\ all_in k w = true
      /\ hd_error (f (n + length w, s')) = Some b
      /\ forall w' s'', s = w' ++ s'' -> length w' < length w ->
                        f (n + length w', s'') = [].
Proof.
  induction s as [|c s IH]; intros n b; cbn [star_lazy flat_map].
  - rewrite app_nil_r. intros H. exists [], []. simpl. rewrite Nat.add_0_r.
    repeat split; [exact H|]. intros w' s'' _ Hl. lia.
  - match goal with |- context [f ?x ++ _] => destruct (f x) as [|b' bs] eqn:E end;
      cbn [app hd_error].
    + destruct (in_cset k c) eqn:Hc; [|simpl; discriminate].
      intros H. apply IH in H as (w & s' & -> & Hw & Hhd & Hmin).
      exists (c :: w), s'. cbn [length app all_in forallb].
      replace (n + S (length w)) with (S n + length w) by lia.
      unfold all_in in Hw. rewrite Hc, Hw. repeat split; [exact Hhd|].
      intros [|c' w'] s'' Hs Hl.
      * simpl in Hs. subst s''. simpl. now rewrite Nat.add_0_r.
      * injection Hs as -> Hs. cbn [length] in Hl |- *.
        replace (n + S (length w')) with (S n + length w') by lia.
        apply Hmin; [exact Hs | lia].
    + intros [= ->]. exists [], (c :: s).
      split; [reflexivity|]. split; [reflexivity|]. split.
      * cbn [length]. rewrite Nat.add_0_r. exact (f_equal (@hd_error B) E).
      * intros w' s'' _ Hl. simpl in Hl. lia.
Qed.

(** A greedy repetition of white space hands over the longest run first. *)
Lemma star_greedy_blanks_head (s : str) :
  forall n, exists p l, star_greedy Space n s = (p, skip_blanks s) :: l.
Proof.
  induction s as [|c s IH]; intros n; cbn [star_greedy skip_blanks].
  - now exists n, [].
  - cbn [in_cset]. destruct (is_space c).
    + destruct (IH (S n)) as (p & l & ->). now exists p, (l ++ [(n, c :: s)]).
    + now exists n, [].
Qed.

(** A greedy repetition over a text that is all in the class hands over
    the whole text first. *)
Lemma star_greedy_all_head (k : cset) (s : str) :
  all_in k s = true ->
  forall n, exists l, star_greedy k n s = (n + length s, []) :: l.
Proof.
  unfold all_in. induction s as [|c s IH]; intros Hs n; cbn [star_greedy].
  - exists []. simpl. now rewrite Nat.add_0_r.
  - cbn [forallb] in Hs. apply andb_true_iff in Hs as [Hc Hs]. rewrite Hc.
    destruct (IH Hs (S n)) as (l & ->). exists (l ++ [(n, c :: s)]).
    cbn [length app]. f_equal. f_equal. lia.
Qed.

(** ** The pattern of the diagnostics, part by part *)

Lemma run_split_last (a X Y c : regex) :
  (forall st, run X st = flat_map (run c) (run Y st)) ->
  forall st, run (Cat a X) st = flat_map (run c) (run (Cat a Y) st).
Proof.
  intros H st. cbn [run]. rewrite flat_map_flat_map.
  apply flat_map_ext. intros x. apply H.
Qed.

Lemma run_diag_pattern (ln : str) :
  run diag_pattern (start_at 0 ln) = flat_map (diag_from ln) (star_lazy Dot 0 ln).
Proof.
  assert (forall st,
             run (word ":" ;; Group 2 \d+ ;; word ":" ;; Group 3 \d+ ;; word ":" ;; \s* ;;
                  Group 4 (word "warning" <|> word "error") ;; word ":" ;; diag_last)%re st
             = flat_map (run diag_last) (run diag_mid st)) as Htail
    by (unfold diag_mid; do 7 apply run_split_last; reflexivity).
  unfold diag_pattern. fold diag_last.
  change (run (Bol ;; ?X)%re (start_at 0 ln)) with (run X (start_at 0 ln) ++ []).
  rewrite app_nil_r.
  change (run (Group 1 (Star false Dot) ;; ?X)%re (start_at 0 ln)) with
    (flat_map (run X)
       (map (fun st' => MState (pos st') (rest st') ((1, firstn (pos st' - 0) ln) :: caps st'))
            (map (fun ns => MState (0 + fst ns) (snd ns) []) (star_lazy Dot 0 ln)))).
  rewrite !flat_map_map. apply flat_map_ext. intros [n s'].
  rewrite Htail. unfold diag_from. cbn [pos rest caps fst snd Nat.add].
  now rewrite Nat.sub_0_r.
Qed.

Lemma diag_mid_match p m a cs cs' :
  Matches diag_mid p m a cs cs' <->
  exists line_no col w1 k,
    m = txt ":" ++ line_no ++ txt ":" ++ col ++ txt ":" ++ w1 ++ k ++ txt ":"
    /\ numeral line_no /\ numeral col /\ blanks w1
    /\ (k = txt "warning" \/ k = txt "error")
    /\ cs' = (4, k) :: (3, col) :: (2, line_no) :: cs.
Proof.
  unfold diag_mid. split.
  - intros M. read_match M.
    apply Matches_group_then in M as (line_no & m2 & cs1 & -> & H2 & M).
    apply Matches_Plus in H2 as (Hn2 & Hd2 & ->). read_match M.
    apply Matches_group_then in M as (col & m3 & cs1 & -> & H3 & M).
    apply Matches_Plus in H3 as (Hn3 & Hd3 & ->). read_match M.
    apply Matches_group_then in M as (k & m4 & cs1 & -> & H4 & M).
    read_match M. subst cs'.
    exists line_no, col. do 2 eexists. split; [reflexivity|].
    repeat split; try assumption.
    + apply Matches_Alt in H4 as [H4 | H4]; read_match H4; [now left | now right].
    + apply Matches_Alt in H4 as [H4 | H4]; read_match H4; now subst.
  - intros (line_no & col & w1 & k & -> & [Hn2 Hd2] & [Hn3 Hd3] & Hw1 & Hk & ->).
    build_match.
    apply Matches_group_then. exists line_no, (txt ":" ++ col ++ txt ":" ++ w1 ++ k ++ txt ":"), cs.
    split; [reflexivity|]. split; [now apply Matches_Plus|]. build_match.
    apply Matches_group_then. exists col, (txt ":" ++ w1 ++ k ++ txt ":"), ((2, line_no) :: cs).
    split; [reflexivity|]. split; [now apply Matches_Plus|]. build_match.
    apply Matches_group_then. exists k, (txt ":"), ((3, col) :: (2, line_no) :: cs).
    split; [reflexivity|]. split.
    + destruct Hk as [-> | ->]; [apply M_AltL | apply M_AltR]; build_match.
    + build_match.
Qed.

Lemma all_in_skip_blanks (k : cset) (s : str) :
  all_in k s = true -> all_in k (skip_blanks s) = true.
Proof.
  destruct (skip_blanks_split s) as (w & E & _). intros H. rewrite E in H.
  rewrite all_in_app in H. now apply andb_true_iff in H.
Qed.

(** To the end of the line: the white space is skipped, all of it, and
    what is left is the fifth group. *)
Lemma diag_last_head (st : mstate) :
  all_in Dot (rest st) = true ->
  exists p, hd_error (run diag_last st)
            = Some (MState p [] ((5, skip_blanks (rest st)) :: caps st)).
Proof.
  intros Hdot. unfold diag_last. cbn [run].
  destruct (star_greedy_blanks_head (rest st) 0) as (p & l & ->).
  cbn [map flat_map fst snd pos rest caps].
  destruct (@star_greedy_all_head Dot _ (@all_in_skip_blanks _ _ Hdot) 0) as (l2 & ->).
  cbn [map flat_map fst snd pos rest caps at_end app hd_error].
  eexists. f_equal. f_equal. f_equal. f_equal.
  replace (pos st + p + (0 + length (skip_blanks (rest st))) - (pos st + p))
    with (length (skip_blanks (rest st))) by lia.
  apply firstn_all.
Qed.

(** A line that reads as a diagnostic with the file part [f] is matched
    once the first group has taken [f]. *)
Lemma reading_found (ln f line_no col k msg : str) :
  all_in Dot ln = true ->
  reads_as ln f line_no col k msg ->
  exists t, ln = f ++ t /\ diag_from ln (length f, t) <> [].
Proof.
  intros Hdot (w1 & w2 & E & Hn2 & Hn3 & Hw1 & Hw2 & Hk).
  exists (txt ":" ++ line_no ++ txt ":" ++ col ++ txt ":" ++ w1 ++ k ++ txt ":" ++ w2 ++ msg).
  split; [exact E|]. unfold diag_from. cbn [fst snd].
  assert (Matches diag_mid (length f)
            (txt ":" ++ line_no ++ txt ":" ++ col ++ txt ":" ++ w1 ++ k ++ txt ":")
            (w2 ++ msg) [(1, firstn (length f) ln)]
            ((4, k) :: (3, col) :: (2, line_no) :: [(1, firstn (length f) ln)])) as M
    by (apply diag_mid_match; exists line_no, col, w1, k;
        destruct Hn2, Hn3; now repeat split).
  apply run_complete in M. rewrite <- ?app_assoc in M.
  set (stM := MState _ (w2 ++ msg) _) in M.
  destruct (@diag_last_head stM) as (p & Hhd).
  { subst stM. cbn [rest]. rewrite E in Hdot.
    do 9 apply all_in_suffix in Hdot. exact Hdot. }
  intros Hnil. rewrite flat_map_nil in Hnil. specialize (Hnil stM M).
  rewrite Hnil in Hhd. discriminate Hhd.
Qed.

(** ** One line *)

Lemma hd_error_None {A : Type} (l : list A) : hd_error l = None -> l = [].
Proof. destruct l; [reflexivity | discriminate]. Qed.

Lemma all_in_prefix (k : cset) (a b : str) :
  all_in k (a ++ b) = true -> all_in k a = true.
Proof. rewrite all_in_app. intros H. now apply andb_true_iff in H. Qed.

(** What the pattern matches on a line is a reading of the line with the
    shortest file part, the message stripped of the white space before
    it. *)
Lemma diag_line_match (ln : str) (st : mstate) :
  all_in Dot ln = true ->
  re_match diag_pattern ln = Some st ->
  exists f line_no col k msg,
    reads_as ln f line_no col k msg
    /\ shortest_file ln f
    /\ no_leading_blank msg
    /\ caps st = [(5, msg); (4, k); (3, col); (2, line_no); (1, f)].
Proof.
  intros Hdot H. unfold re_match in H. rewrite run_diag_pattern in H.
  apply lazy_first in H as (f & t & E & Hf & Hhd & Hmin).
  unfold diag_from in Hhd. cbn [fst snd Nat.add] in Hhd.
  apply hd_flat_map_In in Hhd as (stM & HM & Hlast).
  apply run_sound in HM as (m & Et & _ & M). cbn [pos rest caps] in Et, M.
  apply diag_mid_match in M as (line_no & col & w1 & k & -> & Hn2 & Hn3 & Hw1 & Hk & Hcaps).
  rewrite E, firstn_exact in Hcaps.
  assert (all_in Dot (rest stM) = true) as HdotM.
  { rewrite E, Et in Hdot. now do 2 apply all_in_suffix in Hdot. }
  destruct (diag_last_head stM HdotM) as (p & Hhead).
  rewrite Hhead in Hlast. injection Hlast as <-.
  destruct (skip_blanks_split (rest stM)) as (w2 & E2 & Hw2 & Hnlb).
  exists f, line_no, col, k, (skip_blanks (rest stM)).
  split; [|split; [|split]].
  - exists w1, w2. rewrite <- E2. rewrite E, Et, <- ?app_assoc.
    repeat split; assumption || apply Hn2 || apply Hn3.
  - intros f' line_no' col' k' msg' Hr.
    destruct (reading_found Hdot Hr) as (t' & E' & Hne).
    destruct (Nat.le_gt_cases (length f) (length f')) as [Hle | Hlt]; [exact Hle|].
    exfalso. apply Hne. apply (Hmin f' t' E' Hlt).
  - exact Hnlb.
  - cbn [caps]. now rewrite Hcaps.
Qed.

Lemma diag_line_nomatch (ln : str) :
  all_in Dot ln = true ->
  re_match diag_pattern ln = None ->
  ~ readable ln.
Proof.
  intros Hdot H (f & line_no & col & k & msg & Hr).
  unfold re_match in H. rewrite run_diag_pattern in H.
  apply hd_error_None in H. rewrite flat_map_nil in H.
  destruct (reading_found Hdot Hr) as (t & E & Hne).
  apply Hne, H, star_lazy_In. exists f. repeat split; [exact E|].
  rewrite E in Hdot. now apply all_in_prefix in Hdot.
Qed.

(** The diagnostics of a line, told from its readings. *)
Lemma line_diags_read (ln : str) :
  all_in Dot ln = true ->
  (readable ln ->
   exists f line_no col k msg,
     reads_as ln f line_no col k msg
     /\ shortest_file ln f
     /\ no_leading_blank msg
     /\ line_diags ln
        = [Build_Diag f (int_of_digits line_no) (int_of_digits col) k msg])
  /\ (~ readable ln -> line_diags ln = []).
Proof.
  intros Hdot. unfold line_diags, diag_step.
  destruct (re_match diag_pattern ln) as [st|] eqn:E.
  - destruct (@diag_line_match ln st Hdot E) as (f & line_no & col & k & msg & Hr & Hs & Hn & Hc).
    split.
    + intros _. exists f, line_no, col, k, msg. repeat split; try assumption.
      unfold group. rewrite Hc. reflexivity.
    + intros Hnr. exfalso. apply Hnr. now exists f, line_no, col, k, msg.
  - split; [|reflexivity]. intros Hr. exfalso. now apply (@diag_line_nomatch ln Hdot E).
Qed.

Lemma app_same_length {A : Type} (a a' b b' : list A) :
  a ++ b = a' ++ b' -> length a = length a' -> a = a' /\ b = b'.
Proof.
  revert a'. induction a as [|x a IH]; intros [|x' a'] E Hl; try discriminate Hl.
  - now split.
  - injection E as -> E. injection Hl as Hl. destruct (IH a' E Hl) as [-> ->]. now split.
Qed.

(** Two readings of a line with file parts of the same length and
    messages that start with no white space are the same reading. *)
Lemma reading_unique (ln f line_no col k msg f' line_no' col' k' msg' : str) :
  reads_as ln f line_no col k msg ->
  reads_as ln f' line_no' col' k' msg' ->
  length f = length f' ->
  no_leading_blank msg -> no_leading_blank msg' ->
  f = f' /\ line_no = line_no' /\ col = col' /\ k = k' /\ msg = msg'.
Proof.
  intros (w1 & w2 & E & [_ Hd2] & [_ Hd3] & Hw1 & Hw2 & Hk)
         (w1' & w2' & E' & [_ Hd2'] & [_ Hd3'] & Hw1' & Hw2' & Hk') Hl Hn Hn'.
  rewrite E in E'. apply app_same_length in E' as [<- E']; [|exact Hl].
  apply app_inv_head in E'.
  apply run_cut_unique with (f := is_digit) in E' as [<- E'];
    [|exact Hd2 | exact Hd2' | reflexivity | reflexivity].
  apply app_inv_head in E'.
  apply run_cut_unique with (f := is_digit) in E' as [<- E'];
    [|exact Hd3 | exact Hd3' | reflexivity | reflexivity].
  apply app_inv_head in E'.
  apply run_cut_unique with (f := is_space) in E' as [<- E'];
    [|exact Hw1 | exact Hw1'
     | destruct Hk as [-> | ->]; reflexivity
     | destruct Hk' as [-> | ->]; reflexivity].
  assert (k = k' /\ w2 ++ msg = w2' ++ msg') as [<- E2].
  { destruct Hk as [-> | ->], Hk' as [-> | ->]; try discriminate E';
      (split; [reflexivity|]); apply app_inv_head in E'; now apply app_inv_head in E'. }
  apply run_cut_unique with (f := is_space) in E2 as [_ <-]; try assumption.
  now repeat split.
Qed.


(** ** The bound of int *)

Lemma diag_step_raising_line (diags : list Diagnostic) (ln : str) :
  diag_step_raising (Some diags) ln
  = if line_in_limit ln then Some (diags ++ line_diags ln) else None.
Proof.
  unfold diag_step_raising, line_in_limit, line_diags, diag_step, py_int.
  destruct (re_match diag_pattern ln) as [m|]; [|now rewrite app_nil_r].
  destruct (group m 1), (group m 2) as [line_no|], (group m 3) as [col|],
    (group m 4), (group m 5); try now rewrite app_nil_r.
  destruct (length line_no <=? int_max_str_digits),
    (length col <=? int_max_str_digits); reflexivity.
Qed.

Lemma fold_raising_None (lines : list str) :
  fold_left diag_step_raising lines None = None.
Proof. induction lines as [|ln lines IH]; [reflexivity | exact IH]. Qed.

Lemma fold_raising_lines (lines : list str) :
  forall diags,
    fold_left diag_step_raising lines (Some diags)
    = if forallb line_in_limit lines
      then Some (diags ++ flat_map line_diags lines) else None.
Proof.
  induction lines as [|ln lines IH]; intros diags; cbn [fold_left forallb flat_map].
  - now rewrite app_nil_r.
  - rewrite diag_step_raising_line. destruct (line_in_limit ln); cbn [andb].
    + rewrite IH, app_assoc. reflexivity.
    + apply fold_raising_None.
Qed.

(** The function raises exactly when a numeral is beyond the bound, and
    otherwise returns the list of [parse_diagnostics]. *)
Lemma parse_diagnostics_raising_cases (stderr : str) :
  parse_diagnostics_raising stderr
  = if within_int_limit stderr then Some (parse_diagnostics stderr) else None.
Proof.
  unfold parse_diagnostics_raising, within_int_limit.
  rewrite fold_raising_lines, parse_diagnostics_lines. reflexivity.
Qed.

(** Two readings of a line with file parts of the same length have the
    same numerals. *)
Lemma reading_numerals_unique (ln f line_no col k msg f' line_no' col' k' msg' : str) :
  reads_as ln f line_no col k msg ->
  reads_as ln f' line_no' col' k' msg' ->
  length f = length f' ->
  line_no = line_no' /\ col = col'.
Proof.
  intros (w1 & w2 & E & [_ Hd2] & [_ Hd3] & _)
         (w1' & w2' & E' & [_ Hd2'] & [_ Hd3'] & _) Hl.
  rewrite E in E'. apply app_same_length in E' as [<- E']; [|exact Hl].
  apply app_inv_head in E'.
  apply run_cut_unique with (f := is_digit) in E' as [<- E'];
    [|exact Hd2 | exact Hd2' | reflexivity | reflexivity].
  apply app_inv_head in E'.
  apply run_cut_unique with (f := is_digit) in E' as [<- E'];
    [|exact Hd3 | exact Hd3' | reflexivity | reflexivity].
  now split.
Qed.

(** The test of a line, told from its readings. *)
Lemma line_in_limit_read (ln : str) :
  all_in Dot ln = true ->
  line_in_limit ln = true
  <-> (forall f line_no col k msg,
          reads_as ln f line_no col k msg ->
          shortest_file ln f ->
          length line_no <= int_max_str_digits /\ length col <= int_max_str_digits).
Proof.
  intros Hdot. unfold line_in_limit.
  destruct (re_match diag_pattern ln) as [st|] eqn:E.
  - destruct (@diag_line_match ln st Hdot E)
      as (f0 & line_no0 & col0 & k0 & msg0 & Hr0 & Hs0 & _ & Hc).
    unfold group. rewrite Hc. cbn [group_in Nat.eqb].
    rewrite andb_true_iff, !Nat.leb_le. split.
    + intros Hb f line_no col k msg Hr Hs.
      assert (length f = length f0) as Hl
        by (apply Nat.le_antisymm; [apply (Hs _ _ _ _ _ Hr0) | apply (Hs0 _ _ _ _ _ Hr)]).
      destruct (reading_numerals_unique Hr Hr0 Hl) as [-> ->]. exact Hb.
    + intros H. exact (H _ _ _ _ _ Hr0 Hs0).
  - split; [|reflexivity]. intros _ f line_no col k msg Hr _. exfalso.
    apply (@diag_line_nomatch ln Hdot E). now exists f, line_no, col, k, msg.
Qed.




(** * Further properties of the pipeline *)

(** X1. Whatever the machine does, the diagnostics of a response are the
    ones read off the compiler stderr the same response carries; on a
    compile timeout too, where the stderr text is the fixed marker, which
    reads as no diagnostic. *)
Theorem diagnostics_follow_compile_stderr
        (spawn : filesystem -> list str -> option str -> Z -> proc_result * filesystem)
        (workdir : str) (files : filesystem) (req : CompileRequest.t) :
  let resp := compile_and_run spawn workdir files req in
  CompileResponse.diagnostics resp
  = parse_diagnostics (CompileResponse.compile_stderr resp).
Proof.
  unfold compile_and_run, compile_and_run_with, safe_run. cbv zeta.
  destruct (spawn (with_source workdir files req) (compile_cmd workdir req) None 5%Z)
    as [[|rc out err] fs1]; [reflexivity|].
  destruct (negb (rc =? 0)%Z); [reflexivity|].
  destruct (spawn fs1 _ _ 2%Z) as [[|rc2 out2 err2] fs2]; reflexivity.
Qed.

(** X2. The fields of a response hang together, whatever the machine
    does: the program is run exactly when the compilation succeeded; the
    run succeeded exactly when the exit code is 0; a response without a
    run has empty run streams, no exit code and no timeout flag; a
    response with a run has an exit code exactly when it is not flagged
    as timed out. *)
Theorem response_fields_consistent
        (spawn : filesystem -> list str -> option str -> Z -> proc_result * filesystem)
        (workdir : str) (files : filesystem) (req : CompileRequest.t) :
  let resp := compile_and_run spawn workdir files req in
  CompileResponse.run_attempted resp = CompileResponse.compile_success resp
  /\ (CompileResponse.run_success resp = true <-> CompileResponse.exit_code resp = Some 0%Z)
  /\ (CompileResponse.run_attempted resp = false ->
      CompileResponse.run_stdout resp = [] /\ CompileResponse.run_stderr resp = []
      /\ CompileResponse.exit_code resp = None /\ CompileResponse.timed_out resp = false)
  /\ (CompileResponse.run_attempted resp = true ->
      (CompileResponse.exit_code resp = None <-> CompileResponse.timed_out resp = true)).
Proof.
  unfold compile_and_run, compile_and_run_with, safe_run. cbv zeta.
  destruct (spawn (with_source workdir files req) (compile_cmd workdir req) None 5%Z)
    as [[|rc out err] fs1].
  - cbn. repeat split; discriminate.
  - destruct (negb (rc =? 0)%Z).
    + cbn. repeat split; discriminate.
    + destruct (spawn fs1 _ _ 2%Z) as [[|rc2 out2 err2] fs2]; cbn.
      * repeat split; discriminate.
      * repeat split; try discriminate.
        -- intros H. apply Z.eqb_eq in H. now subst.
        -- intros [= ->]. reflexivity.
Qed.

(** X3. The endpoint starts at most two child processes and nothing of
    the machine matters beyond them: the compiler, with no standard
    input and a bound of 5, on the files with the source written; and,
    only when the compiler ended with status 0, the program with the
    quoted arguments, the standard input of the request and a bound of
    2, on the files the compiler left.  Two machines that agree on these
    two calls give the same response. *)
Theorem response_depends_on_two_calls
        (spawn spawn' : filesystem -> list str -> option str -> Z -> proc_result * filesystem)
        (workdir : str) (files : filesystem) (req : CompileRequest.t) :
  spawn (with_source workdir files req) (compile_cmd workdir req) None 5%Z
  = spawn' (with_source workdir files req) (compile_cmd workdir req) None 5%Z ->
  (forall out err fs1,
      spawn (with_source workdir files req) (compile_cmd workdir req) None 5%Z
      = (CompletedProcess 0 out err, fs1) ->
      spawn fs1 (run_cmd shlex_quote (bin_path workdir) (CompileRequest.args req))
            (CompileRequest.stdin req) 2%Z
      = spawn' fs1 (run_cmd shlex_quote (bin_path workdir) (CompileRequest.args req))
               (CompileRequest.stdin req) 2%Z) ->
  compile_and_run spawn workdir files req = compile_and_run spawn' workdir files req.
Proof.
  intros Hc Hr. unfold compile_and_run, compile_and_run_with, safe_run. cbv zeta.
  rewrite <- Hc.
  destruct (spawn (with_source workdir files req) (compile_cmd workdir req) None 5%Z)
    as [[|rc out err] fs1] eqn:E; [reflexivity|].
  destruct (rc =? 0)%Z eqn:Hrc; cbn [negb]; [|reflexivity].
  apply Z.eqb_eq in Hrc. subst rc. now rewrite (Hr out err fs1 eq_refl).
Qed.

Lemma response_depends_on_two_calls_witness :
  let req := CompileRequest.Build (txt "int main(void){return 0;}") [txt "a b"] None [] [] in
  compile_and_run echo_machine (txt "/tmp/w") [] req
  = compile_and_run
      (fun fs cmd input timeout =>
         if (timeout =? 7)%Z then (TimeoutExpired, fs) else echo_machine fs cmd input timeout)
      (txt "/tmp/w") [] req.
Proof.
  apply response_depends_on_two_calls.
  - reflexivity.
  - intros out err fs1 _. reflexivity.
Defined.

(** ** Quoting loses nothing *)

Lemma replace_quote_cons (new : str) (c : ascii) (s : str) :
  replace_go [QUOTE] new 0 (c :: s)
  = if Ascii.eqb QUOTE c then new ++ replace_go [QUOTE] new 0 s
    else c :: replace_go [QUOTE] new 0 s.
Proof. cbn -[Ascii.eqb QUOTE]. now destruct (Ascii.eqb QUOTE c). Qed.

Lemma replace_quote_injective (a b : str) :
  replace_go [QUOTE] [QUOTE; DQUOTE; QUOTE; DQUOTE; QUOTE] 0 a
  = replace_go [QUOTE] [QUOTE; DQUOTE; QUOTE; DQUOTE; QUOTE] 0 b ->
  a = b.
Proof.
  revert b. induction a as [|c a IH]; intros [|d b] H.
  - reflexivity.
  - rewrite replace_quote_cons in H. destruct (Ascii.eqb QUOTE d); discriminate H.
  - rewrite replace_quote_cons in H. destruct (Ascii.eqb QUOTE c); discriminate H.
  - rewrite !replace_quote_cons in H.
    destruct (Ascii.eqb QUOTE c) eqn:Hc, (Ascii.eqb QUOTE d) eqn:Hd.
    + apply Ascii.eqb_eq in Hc, Hd. subst c d. apply app_inv_head in H.
      now rewrite (IH b H).
    + cbn [app] in H. injection H as H _. subst d. now rewrite Ascii.eqb_refl in Hd.
    + cbn [app] in H. injection H as H _. subst c. now rewrite Ascii.eqb_refl in Hc.
    + injection H as -> H. now rewrite (IH b H).
Qed.

Lemma safe_arg_no_quote (a : str) : safe_arg a = true -> hd_error a <> Some QUOTE.
Proof.
  unfold safe_arg. destruct a as [|c a]; [discriminate|]. cbn [truthy andb forallb hd_error].
  intros H. apply andb_true_iff in H as [H _]. intros [= ->]. discriminate H.
Qed.

Lemma shlex_quote_cases (a : str) :
  (safe_arg a = true /\ shlex_quote a = a)
  \/ (safe_arg a = false
      /\ exists body,
           shlex_quote a = [QUOTE] ++ body ++ [QUOTE]
           /\ body = replace_go [QUOTE] [QUOTE; DQUOTE; QUOTE; DQUOTE; QUOTE] 0 a).
Proof.
  destruct (safe_arg a) eqn:Hs.
  - left. split; [reflexivity | now apply shlex_quote_unchanged].
  - right. split; [reflexivity|]. unfold shlex_quote, safe_arg in *.
    destruct a as [|c a]; [now exists []|].
    cbn [truthy negb andb] in Hs |- *.
    destruct (existsb (fun c0 => negb (is_shell_safe c0)) (c :: a)) eqn:E; cbn [negb].
    + eexists. split; reflexivity.
    + exfalso. assert (forallb is_shell_safe (c :: a) = true) as Hall; [|congruence].
      apply forallb_forall. intros x Hx.
      destruct (is_shell_safe x) eqn:Hx'; [reflexivity|]. exfalso.
      assert (existsb (fun c0 => negb (is_shell_safe c0)) (c :: a) = true)
        by (apply existsb_exists; exists x; now rewrite Hx').
      congruence.
Qed.

(** X4. [shlex.quote] loses nothing: two arguments that are written the
    same into the argument vector are the same argument, and so are two
    argument lists that give the same argument vector. *)
Theorem quoting_is_injective :
  (forall a b : str, shlex_quote a = shlex_quote b -> a = b)
  /\ (forall (program : str) (args args' : list str),
         run_cmd shlex_quote program args = run_cmd shlex_quote program args' ->
         args = args').
Proof.
  assert (forall a b : str, shlex_quote a = shlex_quote b -> a = b) as Hinj.
  { intros a b H.
    destruct (shlex_quote_cases a) as [[Ha Ea] | [Ha (x & Ea & Hx)]],
             (shlex_quote_cases b) as [[Hb Eb] | [Hb (y & Eb & Hy)]].
    - congruence.
    - exfalso. apply (@safe_arg_no_quote a Ha). rewrite <- Ea, H, Eb. reflexivity.
    - exfalso. apply (@safe_arg_no_quote b Hb). rewrite <- Eb, <- H, Ea. reflexivity.
    - rewrite Ea, Eb in H. apply app_inv_head in H. apply app_inv_tail in H.
      subst x y. now apply replace_quote_injective. }
  split; [exact Hinj|].
  intros program args args' H. unfold run_cmd in H. apply app_inv_head in H.
  revert args' H. induction args as [|a args IH]; intros [|b args'] H;
    try discriminate H; [reflexivity|].
  cbn [map] in H. injection H as Hab H. now rewrite (Hinj a b Hab), (IH args' H).
Qed.

(** * Further properties of parse_diagnostics *)

Lemma digit_value_nonneg (c : ascii) : is_digit c = true -> (0 <= digit_value c)%Z.
Proof.
  unfold is_digit, between, digit_value. intros H.
  apply andb_true_iff in H as [H _]. apply N.leb_le in H. lia.
Qed.

Lemma int_of_digits_nonneg (s : str) :
  all_in Digit s = true -> (0 <= int_of_digits s)%Z.
Proof.
  unfold int_of_digits, all_in.
  assert (forall acc, (0 <= acc)%Z -> forallb (in_cset Digit) s = true ->
                      (0 <= fold_left (fun acc c => 10 * acc + digit_value c) s acc)%Z) as H.
  { induction s as [|c s IH]; intros acc Hacc Hs; [exact Hacc|].
    cbn [forallb] in Hs. apply andb_true_iff in Hs as [Hc Hs]. cbn [fold_left].
    apply IH; [|exact Hs]. apply digit_value_nonneg in Hc. lia. }
  apply H. lia.
Qed.

(** What one line gives: nothing, or the one Diagnostic of a reading of
    the line. *)
Lemma line_diags_cases (ln : str) :
  all_in Dot ln = true ->
  line_diags ln = []
  \/ exists f line_no col k msg,
       reads_as ln f line_no col k msg
       /\ no_leading_blank msg
       /\ line_diags ln = [Build_Diag f (int_of_digits line_no) (int_of_digits col) k msg].
Proof.
  intros Hdot. unfold line_diags, diag_step.
  destruct (re_match diag_pattern ln) as [st|] eqn:E; [|now left].
  right. destruct (@diag_line_match ln st Hdot E)
    as (f & line_no & col & k & msg & Hr & _ & Hn & Hc).
  exists f, line_no, col, k, msg. repeat split; try assumption.
  unfold group. rewrite Hc. reflexivity.
Qed.

Lemma line_diags_short (ln : str) : length (line_diags ln) <= 1.
Proof.
  unfold line_diags, diag_step. destruct (re_match diag_pattern ln) as [m|]; [|simpl; lia].
  destruct (group m 1), (group m 2), (group m 3), (group m 4), (group m 5); simpl; lia.
Qed.

(** X5. Whatever the stderr text, there are no more diagnostics than
    lines, and every Diagnostic has the kind warning or error, a line and
    a column that are not negative, and a message that holds no line feed
    and starts with no white space. *)
Theorem diagnostics_well_formed (stderr : str) :
  length (parse_diagnostics stderr) <= length (splitlines stderr)
  /\ forall d,
       In d (parse_diagnostics stderr) ->
       (kind d = txt "warning" \/ kind d = txt "error")
       /\ (0 <= line d)%Z /\ (0 <= column d)%Z
       /\ no_leading_blank (message d)
       /\ ~ In LF (message d).
Proof.
  rewrite parse_diagnostics_lines. split.
  - induction (splitlines stderr) as [|ln lines IH]; [simpl; lia|].
    cbn [flat_map]. rewrite length_app. pose proof (line_diags_short ln).
    cbn [length]. lia.
  - intros d Hd. apply in_flat_map in Hd as (ln & Hln & Hd).
    apply splitlines_dot in Hln.
    destruct (@line_diags_cases ln Hln)
      as [E | (f & line_no & col & k & msg & (w1 & w2 & E & [_ H2] & [_ H3] & _ & _ & Hk)
               & Hn & E')].
    + rewrite E in Hd. destruct Hd.
    + rewrite E' in Hd. destruct Hd as [<- | []]. cbn [kind line column message].
      repeat split; try assumption; try now apply int_of_digits_nonneg.
      rewrite E in Hln. do 10 apply all_in_suffix in Hln.
      unfold all_in in Hln. rewrite forallb_forall in Hln. intros Hlf.
      specialize (Hln LF Hlf). discriminate Hln.
Qed.

(** ** Joining two texts *)

Lemma splitlines_go_join (b : str) (a : str) :
  forall cur after_cr,
    (after_cr = true -> cur = []) ->
    exists extra,
      (extra = [] \/ extra = [[]])
      /\ splitlines_go cur after_cr (a ++ LF :: b)
         = splitlines_go cur after_cr a ++ extra ++ splitlines b.
Proof.
  induction a as [|c a IH]; intros cur after_cr Hinv.
  - cbn [app splitlines_go]. rewrite Ascii.eqb_refl. destruct after_cr; cbn [andb].
    + rewrite (Hinv eq_refl). exists []. split; [now left | reflexivity].
    + change (is_linebreak LF) with true. change (Ascii.eqb LF CR) with false. cbv iota.
      destruct cur as [|x cur].
      * exists [[]]. split; [now right | reflexivity].
      * exists []. split; [now left | reflexivity].
  - cbn [app splitlines_go].
    destruct (after_cr && Ascii.eqb c LF).
    + apply (IH [] false). discriminate.
    + destruct (is_linebreak c).
      * destruct (IH [] (Ascii.eqb c CR)) as (extra & He & ->); [reflexivity|].
        exists extra. split; [exact He | reflexivity].
      * apply (IH (cur ++ [c]) false). discriminate.
Qed.

(** X6. Reading two texts joined by a line feed gives the diagnostics of
    the first followed by those of the second, whatever the two texts
    are, and also when the first one ends with a line boundary. *)
Theorem parse_diagnostics_join (a b : str) :
  parse_diagnostics (a ++ [LF] ++ b) = parse_diagnostics a ++ parse_diagnostics b.
Proof.
  rewrite !parse_diagnostics_lines. unfold splitlines at 1.
  destruct (@splitlines_go_join b a [] false) as (extra & He & E); [discriminate|].
  cbn [app]. rewrite E, !flat_map_app. fold (splitlines a).
  destruct He as [-> | ->]; reflexivity.
Qed.

(** * Further properties of the phase rule engine *)

Lemma known_phase_cases (pid : str) :
  known_phase pid = true ->
  pid = txt "reality" \/ pid = txt "archaeology" \/ pid = txt "consciousness"
  \/ pid = txt "choice".
Proof.
  unfold known_phase. rewrite !orb_true_iff, !str_eqb_eq. tauto.
Qed.

Lemma validate_Ok_known (pid code : str) (se so : option str) (r : ValidateResponse.t) :
  validate (ValidateRequest.Build pid code se so) = Ok r -> known_phase pid = true.
Proof.
  destruct (known_phase pid) eqn:E; [reflexivity|]. unfold known_phase in E.
  apply orb_false_iff in E as [E H4]. apply orb_false_iff in E as [E H3].
  apply orb_false_iff in E as [H1 H2].
  unfold validate, validate_with. simpl ValidateRequest.phase_id.
  rewrite H1, H2, H3, H4. discriminate.
Qed.

(** A response of [validate] is built by the common tail of the function,
    from a verdict, a list of messages and a narrative. *)
Lemma validate_responds (pid code : str) (se so : option str) (r : ValidateResponse.t) :
  validate (ValidateRequest.Build pid code se so) = Ok r ->
  exists passed msgs roy_line,
    validate (ValidateRequest.Build pid code se so) = respond passed msgs roy_line.
Proof.
  intros H. apply validate_Ok_known in H.
  destruct (known_phase_cases _ H) as [-> | [-> | [-> | ->]]].
  - rewrite validate_reality. cbv zeta. eauto.
  - rewrite validate_archaeology. cbv zeta. eauto.
  - rewrite validate_consciousness. cbv zeta. eauto.
  - destruct (validate_choice_search code se so) as [roy_line ->]. cbv zeta. eauto.
Qed.

(** X7. A compiler stderr that is not empty fails every phase, whatever
    the source text: warnings alone are enough. *)
Theorem nonempty_stderr_fails_every_phase
        (pid code se : str) (so : option str) (r : ValidateResponse.t) :
  se <> [] ->
  validate (ValidateRequest.Build pid code (Some se) so) = Ok r ->
  ValidateResponse.passed r = false.
Proof.
  intros Hse H. pose proof (validate_Ok_known _ _ _ _ H) as Hk.
  assert (no_compile_errors (Some se) = false) as Hn
    by (destruct se; [congruence | reflexivity]).
  destruct (known_phase_cases _ Hk) as [-> | [-> | [-> | ->]]].
  - rewrite validate_reality, Hn in H. cbv zeta in H. unfold respond in H.
    injection H as <-. cbn. apply andb_false_r.
  - rewrite validate_archaeology, Hn in H. cbv zeta in H. unfold respond in H.
    injection H as <-. cbn. apply andb_false_r.
  - rewrite validate_consciousness, Hn in H. cbv zeta in H. unfold respond in H.
    injection H as <-. cbn. apply andb_false_r.
  - destruct (validate_choice_search code (Some se) so) as [roy_line E].
    rewrite E, Hn in H. cbv zeta in H. unfold respond in H.
    injection H as <-. cbn. apply andb_false_r.
Qed.

Lemma nonempty_stderr_fails_every_phase_witness :
  let code := txt "float gravity = 9.81; for (int i = 0; i < 10; i++) {}" in
  let r := ValidateResponse.Build false [] roy_reality_ko None in
  validate (ValidateRequest.Build (txt "reality") code None None)
  = Ok (ValidateResponse.Build true [] roy_reality_ok None)
  /\ validate (ValidateRequest.Build (txt "reality") code
                 (Some (txt "main.c:1:1: warning: unused variable")) None) = Ok r
  /\ ValidateResponse.passed r = false.
Proof.
  split; [reflexivity|]. split; [reflexivity|].
  apply (@nonempty_stderr_fails_every_phase (txt "reality")
           (txt "float gravity = 9.81; for (int i = 0; i < 10; i++) {}")
           (txt "main.c:1:1: warning: unused variable") None).
  - discriminate.
  - reflexivity.
Defined.

(** X8. [validate] never reads the run stdout, and of the compiler stderr
    it reads only whether it is empty or absent: two requests for the
    same phase and source get the same outcome whenever their stderr
    texts are both silent or both not. *)
Theorem validate_reads_only_stderr_emptiness
        (pid code : str) (se se' so so' : option str) :
  (stderr_silent se <-> stderr_silent se') ->
  validate (ValidateRequest.Build pid code se so)
  = validate (ValidateRequest.Build pid code se' so').
Proof.
  intros H.
  assert (no_compile_errors se = no_compile_errors se') as E.
  { rewrite <- !no_compile_errors_silent in H.
    destruct (no_compile_errors se), (no_compile_errors se'); try reflexivity;
      destruct H as [H1 H2]; [now rewrite H1 | now rewrite H2]. }
  unfold validate, validate_with.
  cbn [ValidateRequest.phase_id ValidateRequest.code ValidateRequest.compile_stderr].
  now rewrite E.
Qed.

Lemma validate_reads_only_stderr_emptiness_witness :
  validate (ValidateRequest.Build (txt "choice") (txt "return SAVE_ALL;") None
              (Some (txt "1")))
  = validate (ValidateRequest.Build (txt "choice") (txt "return SAVE_ALL;") (Some [])
                (Some (txt "2"))).
Proof.
  apply validate_reads_only_stderr_emptiness.
  split; intros _; [now right | now left].
Defined.

(** X9. In every response the hint is the first feedback message when
    the phase failed, and is absent when it passed or when there is no
    message. *)
Theorem hint_is_first_message_of_a_failure
        (pid code : str) (se so : option str) (r : ValidateResponse.t) :
  validate (ValidateRequest.Build pid code se so) = Ok r ->
  ValidateResponse.progress_hint r
  = if ValidateResponse.passed r then None else hd_error (ValidateResponse.messages r).
Proof.
  intros H. destruct (validate_responds _ _ _ _ H) as (p & m & y & E).
  rewrite E in H. unfold respond in H. injection H as <-. cbn.
  destruct p; [reflexivity|]. now destruct m.
Qed.

Lemma hint_is_first_message_of_a_failure_witness :
  let r := ValidateResponse.Build false [msg_decide] roy_choose (Some msg_decide) in
  validate (ValidateRequest.Build (txt "choice") (txt "return 0;") None None) = Ok r
  /\ ValidateResponse.progress_hint r
     = if ValidateResponse.passed r then None else hd_error (ValidateResponse.messages r).
Proof.
  split; [reflexivity|].
  apply (@hint_is_first_message_of_a_failure (txt "choice") (txt "return 0;") None None).
  reflexivity.
Defined.

(** X10. A response never holds more than three messages, and a passing
    one holds none, but for the advisory on the emotion buffer, which a
    passing response of phase archaeology can carry alone. *)
Theorem passing_carries_no_feedback
        (pid code : str) (se so : option str) (r : ValidateResponse.t) :
  validate (ValidateRequest.Build pid code se so) = Ok r ->
  length (ValidateResponse.messages r) <= 3
  /\ (ValidateResponse.passed r = true ->
      ValidateResponse.messages r = []
      \/ (pid = txt "archaeology" /\ ValidateResponse.messages r = [msg_emotion])).
Proof.
  intros H. pose proof (validate_Ok_known _ _ _ _ H) as Hk.
  destruct (known_phase_cases _ Hk) as [-> | [-> | [-> | ->]]].
  - rewrite validate_reality in H. cbv zeta in H. unfold respond in H. injection H as <-.
    cbn. destruct (is_some (re_search re_gravity code)),
           (is_some (re_search re_loop code)); cbn; split; try lia;
      (discriminate || now left).
  - rewrite validate_archaeology in H. cbv zeta in H. unfold respond in H.
    injection H as <-. cbn.
    destruct (is_some (re_search re_time code)), (is_some (re_search re_ptr_time code)),
      (is_some (re_search re_emotion_sized code) || is_some (re_search re_emotion_any code));
      cbn; split; try lia; try discriminate; intros _; [now left | now right].
  - rewrite validate_consciousness in H. cbv zeta in H. unfold respond in H.
    injection H as <-. cbn. destruct (is_some (re_search re_free code)); cbn; split;
      try lia; (discriminate || now left).
  - destruct (validate_choice_search code se so) as [roy_line E]. rewrite E in H.
    cbv zeta in H. unfold respond in H. injection H as <-. cbn.
    destruct (is_some (re_search re_choice code) && no_compile_errors se); cbn; split;
      try lia; (discriminate || now left).
Qed.

Lemma passing_carries_no_feedback_witness :
  let r := ValidateResponse.Build true [msg_emotion] roy_archaeology_ok None in
  validate (ValidateRequest.Build (txt "archaeology") (txt "time_t when;") None None) = Ok r
  /\ length (ValidateResponse.messages r) <= 3
  /\ (ValidateResponse.passed r = true ->
      ValidateResponse.messages r = []
      \/ (txt "archaeology" = txt "archaeology"
          /\ ValidateResponse.messages r = [msg_emotion])).
Proof.
  split; [reflexivity|].
  apply (@passing_carries_no_feedback (txt "archaeology") (txt "time_t when;") None None).
  reflexivity.
Defined.

(** X11. In the phases reality, archaeology and consciousness the
    narrative is one of the two lines of the phase, and the verdict alone
    picks it. *)
Theorem narrative_follows_verdict
        (pid code : str) (se so : option str) (r : ValidateResponse.t) (ok ko : str) :
  phase_narratives pid = Some (ok, ko) ->
  validate (ValidateRequest.Build pid code se so) = Ok r ->
  ValidateResponse.roy r = if ValidateResponse.passed r then ok else ko.
Proof.
  intros Hn H. pose proof (validate_Ok_known _ _ _ _ H) as Hk.
  destruct (known_phase_cases _ Hk) as [-> | [-> | [-> | ->]]];
    cbn in Hn; try discriminate Hn; injection Hn as <- <-.
  - rewrite validate_reality in H. cbv zeta in H. unfold respond in H. now injection H as <-.
  - rewrite validate_archaeology in H. cbv zeta in H. unfold respond in H.
    now injection H as <-.
  - rewrite validate_consciousness in H. cbv zeta in H. unfold respond in H.
    now injection H as <-.
Qed.

Lemma narrative_follows_verdict_witness :
  let r := ValidateResponse.Build false [msg_free] roy_consciousness_ko (Some msg_free) in
  phase_narratives (txt "consciousness") = Some (roy_consciousness_ok, roy_consciousness_ko)
  /\ validate (ValidateRequest.Build (txt "consciousness") (txt "int main(void){}") None None)
     = Ok r
  /\ ValidateResponse.roy r
     = if ValidateResponse.passed r then roy_consciousness_ok else roy_consciousness_ko.
Proof.
  split; [reflexivity|]. split; [reflexivity|].
  apply (@narrative_follows_verdict (txt "consciousness") (txt "int main(void){}")
           None None).
  - reflexivity.
  - reflexivity.
Defined.

(** X12. In phase choice the whole response is told by the leftmost
    return statement of the source and by whether the compiler stderr is
    silent: the phase passes exactly when there is such a statement and
    the stderr is silent, the feedback is empty when it passes and the one
    indecision message when it fails, and the narrative is the one of
    the statement, or the third one when there is none. *)
Theorem choice_response (code : str) (se so : option str) :
  exists r,
    validate (ValidateRequest.Build (txt "choice") code se so) = Ok r
    /\ (ValidateResponse.passed r = true <->
        first_decision code <> None /\ stderr_silent se)
    /\ ValidateResponse.messages r
       = (if ValidateResponse.passed r then [] else [msg_decide])
    /\ ValidateResponse.roy r
       = match first_decision code with
         | Some d => narrative d
         | None => roy_choose
         end.
Proof.
  rewrite validate_choice. destruct (first_decision code) as [d|]; unfold respond;
    eexists; (split; [reflexivity|]); cbn.
  - rewrite no_compile_errors_silent. repeat split.
    + discriminate.
    + tauto.
    + tauto.
    + now destruct (no_compile_errors se).
  - repeat split; try discriminate. intros [H _]. congruence.
Qed.

(** ** The patterns of the phases reality and consciousness *)

Lemma gravity_occurs (code : str) : occurs re_gravity code <-> gravity_assignment code.
Proof.
  split.
  - intros (pre & m & post & cs & -> & M). unfold re_gravity in M.
    read_match M. rewrite <- ?app_assoc.
    do 4 eexists. split; [reflexivity|]. now split.
  - intros (pre & w1 & w2 & post & -> & H1 & H2).
    exists pre, (txt "gravity" ++ w1 ++ txt "=" ++ w2 ++ txt "9.81"), post, [].
    split; [now rewrite <- ?app_assoc|]. unfold re_gravity. build_match.
Qed.

Lemma loop_occurs (code : str) : occurs re_loop code <-> loop_header code.
Proof.
  split.
  - intros (pre & m & post & cs & -> & M). unfold re_loop in M.
    read_match M. rewrite <- ?app_assoc.
    do 12 eexists. split; [reflexivity|]. repeat split; assumption.
  - intros (pre & w1 & w2 & w3 & w4 & w5 & w6 & w7 & w8 & w9 & w10 & post & -> & H1 & H2
            & Hn3 & H3 & H4 & H5 & H6 & H7 & H8 & H9 & H10).
    exists pre,
      (txt "for" ++ w1 ++ txt "(" ++ w2 ++ txt "int" ++ w3 ++ txt "i" ++ w4 ++ txt "=" ++ w5
       ++ txt "0" ++ w6 ++ txt ";" ++ w7 ++ txt "i" ++ w8 ++ txt "<" ++ w9 ++ txt "10" ++ w10
       ++ txt ";"), post, [].
    split; [now rewrite <- ?app_assoc|]. unfold re_loop. build_match.
Qed.

Lemma free_occurs (code : str) : occurs re_free code <-> free_call code.
Proof.
  split.
  - intros (pre & m & post & cs & -> & M). unfold re_free in M.
    read_match M. rewrite <- ?app_assoc.
    do 7 eexists. split; [reflexivity|]. repeat split; assumption.
  - intros (pre & w1 & w2 & ident & w3 & w4 & post & -> & H1 & H2 & Hn & Hi & H3 & H4).
    exists pre,
      (txt "free" ++ w1 ++ txt "(" ++ w2 ++ ident ++ w3 ++ txt ")" ++ w4 ++ txt ";"),
      post, [].
    split; [now rewrite <- ?app_assoc|]. unfold re_free. build_match.
Qed.

Lemma remember_occurs (code : str) :
  occurs re_remember code <-> remember_declaration code.
Proof.
  split.
  - intros (pre & m & post & cs & -> & M). unfold re_remember in M.
    read_match M. rewrite <- ?app_assoc.
    do 5 eexists. split; [reflexivity|]. now repeat split.
  - intros (pre & w1 & w2 & w3 & post & -> & H1 & H2 & H3).
    exists pre, (txt "void" ++ w1 ++ txt "*" ++ w2 ++ txt "remember" ++ w3 ++ txt "("),
      post, [].
    split; [now rewrite <- ?app_assoc|]. unfold re_remember. build_match.
Qed.

(** X13. In phase reality the verdict is: an assignment of 9.81 to
    gravity is in the source, and the loop header with the bound 10 and
    the strict comparison is, and the compiler stderr is silent; the
    feedback holds the gravity message exactly when there is no such
    assignment and the loop message exactly when there is no such header,
    the gravity message first. *)
Theorem reality_verdict (code : str) (se so : option str) :
  exists r,
    validate (ValidateRequest.Build (txt "reality") code se so) = Ok r
    /\ (ValidateResponse.passed r = true <->
        gravity_assignment code /\ loop_header code /\ stderr_silent se)
    /\ (In msg_gravity (ValidateResponse.messages r) <-> ~ gravity_assignment code)
    /\ (In msg_loop (ValidateResponse.messages r) <-> ~ loop_header code)
    /\ (~ gravity_assignment code ->
        hd_error (ValidateResponse.messages r) = Some msg_gravity).
Proof.
  rewrite validate_reality. cbv zeta. unfold respond. eexists. split; [reflexivity|].
  cbn [ValidateResponse.passed ValidateResponse.messages].
  rewrite <- gravity_occurs, <- loop_occurs, <- !search_occurs, <- no_compile_errors_silent.
  rewrite !andb_true_iff.
  destruct (is_some (re_search re_gravity code)), (is_some (re_search re_loop code));
    cbn; repeat split; try tauto; try congruence;
    try (intros [H | H]; vm_compute in H; try discriminate H; tauto);
    try (intros H; exfalso; now apply H);
    try (intros _; now left); try (intros _; right; now left);
    try (intros [H | [H | H]]; vm_compute in H; try discriminate H; tauto).
Qed.

(** X14. In phase consciousness the verdict is: a call free of one
    identifier is in the source, and the head of a declaration of
    remember that returns a pointer to void is, and the compiler stderr
    is silent.  The feedback is the free message when there is no such
    call and is empty otherwise: a submission that fails for want of the
    declaration, or for its stderr, gets no message and no hint. *)
Theorem consciousness_verdict (code : str) (se so : option str) :
  exists r,
    validate (ValidateRequest.Build (txt "consciousness") code se so) = Ok r
    /\ (ValidateResponse.passed r = true <->
        free_call code /\ remember_declaration code /\ stderr_silent se)
    /\ (~ free_call code -> ValidateResponse.messages r = [msg_free])
    /\ (free_call code ->
        ValidateResponse.messages r = [] /\ ValidateResponse.progress_hint r = None).
Proof.
  rewrite validate_consciousness. cbv zeta. unfold respond. eexists.
  split; [reflexivity|].
  cbn [ValidateResponse.passed ValidateResponse.messages ValidateResponse.progress_hint].
  rewrite <- free_occurs, <- remember_occurs, <- !search_occurs, <- no_compile_errors_silent.
  rewrite !andb_true_iff.
  destruct (is_some (re_search re_free code)); cbn; repeat split; try tauto;
    try congruence; try (intros H; exfalso; now apply H).
  now destruct (is_some (re_search re_remember code) && no_compile_errors se).
Qed.

(** ** Text around a submission *)

Lemma Matches_anchor_free r p m a cs cs' :
  Matches r p m a cs cs' ->
  anchor_free r = true ->
  forall p' a', Matches r p' m a' cs cs'.
Proof.
  induction 1; cbn [anchor_free]; intros Hf p' a'; try discriminate Hf;
    try (now constructor).
  - apply andb_true_iff in Hf as [H1 H2]. econstructor; [now apply IHMatches1|].
    now apply IHMatches2.
  - apply andb_true_iff in Hf as [H1 H2]. apply M_AltL. now apply IHMatches.
  - apply andb_true_iff in Hf as [H1 H2]. apply M_AltR. now apply IHMatches.
  - constructor. now apply IHMatches.
Qed.

(** A pattern without anchors that occurs in a text occurs in every text
    around it. *)
Lemma occurs_pad (r : regex) (pre s post : str) :
  anchor_free r = true -> occurs r s -> occurs r (pre ++ s ++ post).
Proof.
  intros Hf (pre0 & m & post0 & cs & -> & M).
  exists (pre ++ pre0), m, (post0 ++ post), cs.
  split; [now rewrite <- !app_assoc|].
  now apply (Matches_anchor_free M).
Qed.

Lemma search_pad (r : regex) (pre s post : str) :
  anchor_free r = true ->
  is_some (re_search r s) = true -> is_some (re_search r (pre ++ s ++ post)) = true.
Proof. rewrite !search_occurs. apply occurs_pad. Qed.

(** X15. In the phases reality, consciousness and choice a submission
    that passes still passes with any text put before and after it, so
    that what a comment holds counts as much as code.  Phase archaeology
    is not so: text after a passing source can make it fail. *)
Theorem padding_keeps_passing :
  (forall (pid code : str) (se so : option str) (pre post : str) (r : ValidateResponse.t),
      str_eqb pid (txt "archaeology") = false ->
      validate (ValidateRequest.Build pid code se so) = Ok r ->
      ValidateResponse.passed r = true ->
      exists r',
        validate (ValidateRequest.Build pid (pre ++ code ++ post) se so) = Ok r'
        /\ ValidateResponse.passed r' = true)
  /\ (validate (ValidateRequest.Build (txt "archaeology") (txt "time_t when;") None None)
      = Ok (ValidateResponse.Build true [msg_emotion] roy_archaeology_ok None)
      /\ validate (ValidateRequest.Build (txt "archaeology")
                     (txt "time_t when;" ++ txt " typedef void* timestamp_t;") None None)
         = Ok (ValidateResponse.Build false [msg_ptr_time; msg_emotion] roy_archaeology_ko
                 (Some msg_ptr_time))).
Proof.
  split; [|split; reflexivity].
  intros pid code se so pre post r Hna H Hp.
  pose proof (validate_Ok_known _ _ _ _ H) as Hk.
  destruct (known_phase_cases _ Hk) as [-> | [-> | [-> | ->]]]; try discriminate Hna.
  - rewrite validate_reality in H |- *. cbv zeta in H |- *. unfold respond in H |- *.
    injection H as <-. cbn in Hp. apply andb_true_iff in Hp as [Hp Hs].
    apply andb_true_iff in Hp as [Hg Hl]. eexists. split; [reflexivity|]. cbn.
    now rewrite (search_pad re_gravity pre code post eq_refl Hg),
      (search_pad re_loop pre code post eq_refl Hl), Hs.
  - rewrite validate_consciousness in H |- *. cbv zeta in H |- *. unfold respond in H |- *.
    injection H as <-. cbn in Hp. apply andb_true_iff in Hp as [Hp Hs].
    apply andb_true_iff in Hp as [Hf Hr]. eexists. split; [reflexivity|]. cbn.
    now rewrite (search_pad re_free pre code post eq_refl Hf),
      (search_pad re_remember pre code post eq_refl Hr), Hs.
  - destruct (validate_choice_search code se so) as [y E]. rewrite E in H.
    destruct (validate_choice_search (pre ++ code ++ post) se so) as [y' ->].
    cbv zeta in H |- *. unfold respond in H |- *.
    injection H as <-. cbn in Hp. apply andb_true_iff in Hp as [Hc Hs].
    eexists. split; [reflexivity|]. cbn.
    now rewrite (search_pad re_choice pre code post eq_refl Hc), Hs.
Qed.

(** * The curriculum and the rule engine *)

(** X16. The phases [get_phases] lists are, in this order, reality,
    archaeology, consciousness and choice, each with the keys id, title,
    prompt and starterCode; and the ids it lists are exactly the phase
    ids for which [validate] gives a response. *)
Theorem listed_phases_are_the_validated_ones :
  map (dict_get (txt "id")) get_phases
  = [Some (txt "reality"); Some (txt "archaeology"); Some (txt "consciousness");
     Some (txt "choice")]
  /\ (forall d, In d get_phases ->
                map fst d = [txt "id"; txt "title"; txt "prompt"; txt "starterCode"])
  /\ (forall (pid code : str) (se so : option str),
         (exists r, validate (ValidateRequest.Build pid code se so) = Ok r)
         <-> In (Some pid) (map (dict_get (txt "id")) get_phases)).
Proof.
  split; [reflexivity|]. split.
  - intros d [<- | [<- | [<- | [<- | []]]]]; reflexivity.
  - intros pid code se so.
    change (map (dict_get (txt "id")) get_phases) with
      [Some (txt "reality"); Some (txt "archaeology"); Some (txt "consciousness");
       Some (txt "choice")].
    split.
    + intros [r H]. apply validate_Ok_known, known_phase_cases in H.
      destruct H as [-> | [-> | [-> | ->]]]; cbn; tauto.
    + intros [[= <-] | [[= <-] | [[= <-] | [[= <-] | []]]]].
      * rewrite validate_reality. cbv zeta. unfold respond. eauto.
      * apply validate_archaeology_Ok.
      * rewrite validate_consciousness. cbv zeta. unfold respond. eauto.
      * destruct (validate_choice_search code se so) as [y E]. cbv zeta in E.
        unfold respond in E. eexists. exact E.
Qed.

(** X17. The starter code of every phase fails its own phase, even with
    a silent compiler, and the response carries a hint: the learner
    starts each phase with something to fix and is told what. *)
Theorem every_starter_fails_with_a_hint (p : Phase.t) :
  In p PHASES ->
  exists r hint,
    validate (ValidateRequest.Build (Phase.id p) (Phase.starter_code p) None None) = Ok r
    /\ ValidateResponse.passed r = false
    /\ ValidateResponse.progress_hint r = Some hint
    /\ In hint [msg_gravity; msg_ptr_time; msg_free; msg_decide].
Proof.
  intros [<- | [<- | [<- | [<- | []]]]].
  - exists (ValidateResponse.Build false [msg_gravity; msg_loop] roy_reality_ko
              (Some msg_gravity)), msg_gravity.
    split; [vm_compute; reflexivity|]. split; [reflexivity|]. split; [reflexivity|].
    now left.
  - exists (ValidateResponse.Build false [msg_ptr_time] roy_archaeology_ko
              (Some msg_ptr_time)), msg_ptr_time.
    split; [vm_compute; reflexivity|]. split; [reflexivity|]. split; [reflexivity|].
    right; now left.
  - exists (ValidateResponse.Build false [msg_free] roy_consciousness_ko (Some msg_free)),
      msg_free.
    split; [vm_compute; reflexivity|]. split; [reflexivity|]. split; [reflexivity|].
    right; right; now left.
  - exists (ValidateResponse.Build false [msg_decide] roy_choose (Some msg_decide)),
      msg_decide.
    split; [vm_compute; reflexivity|]. split; [reflexivity|]. split; [reflexivity|].
    right; right; right; now left.
Qed.

Lemma every_starter_fails_with_a_hint_witness :
  exists r hint,
    validate (ValidateRequest.Build (txt "choice") starter_choice None None) = Ok r
    /\ ValidateResponse.passed r = false
    /\ ValidateResponse.progress_hint r = Some hint
    /\ In hint [msg_gravity; msg_ptr_time; msg_free; msg_decide].
Proof.
  apply (@every_starter_fails_with_a_hint
           (Phase.Build (txt "choice") (txt "Phase 4: The Final Choice") prompt_choice
              starter_choice)).
  right. right. right. left. reflexivity.
Defined.

(** * The persistence probe *)

(** X18. Whatever the import of the database module gives, the probe
    answers for the database url and the database name from the
    environment alone: set, when the variable is present and not empty,
    and not set otherwise.  What the [try] statement wrote into these two
    fields is never returned, and the backend is always reported as
    running. *)
Theorem probe_reports_environment_only
        (import_db : import_outcome) (getenv : str -> option str) :
  let r := test_database import_db getenv in
  Probe.backend r = txt "✅ Running"
  /\ Probe.database_url r
     = Some (if env_truthy (getenv (txt "DATABASE_URL")) then env_set else env_not_set)
  /\ Probe.database_name r
     = Some (if env_truthy (getenv (txt "DATABASE_NAME")) then env_set else env_not_set)
  /\ (getenv (txt "DATABASE_URL") = Some [] -> Probe.database_url r = Some env_not_set).
Proof.
  cbv zeta. unfold test_database, probe_database. repeat split.
  - destruct import_db as [| e | [[[| v | [|] e1] [cs | e2]]|]]; reflexivity.
  - intros ->. reflexivity.
Qed.

(** X19. The probe lists at most ten collections, the first ten the
    database names, and lists any only when it reports the database as
    connected and working; it reports the connection as made exactly when
    the import gave a database object whose name could be read without
    an exception. *)
Theorem probe_collections_and_status
        (import_db : import_outcome) (getenv : str -> option str) :
  let r := test_database import_db getenv in
  length (Probe.collections r) <= 10
  /\ (Probe.collections r <> [] ->
      Probe.connection_status r = txt "Connected"
      /\ Probe.database r = txt "✅ Connected & Working"
      /\ exists db names,
           import_db = Imported (Some db)
           /\ list_collection_names db = Returns names
           /\ Probe.collections r = firstn 10 names)
  /\ (Probe.connection_status r = txt "Connected" <->
      exists db, import_db = Imported (Some db)
                 /\ forall b e, name_attr db <> AccessRaises b e).
Proof.
  cbv zeta. unfold test_database, probe_database.
  destruct import_db as [| e | [[[| v | [|] e1] [cs | e2]]|]];
    cbn [set_database set_database_url set_database_name set_connection_status
         set_collections Probe.collections Probe.connection_status Probe.database
         Probe.backend Probe.database_url Probe.database_name name_attr
         list_collection_names length];
    (split; [try apply firstn_le_length; try lia |]);
    (split;
     [ try (intros H; now exfalso);
       try (intros _; repeat split; eexists _, _; repeat split)
     | split;
       [ try (intros _; eexists; split; [reflexivity | discriminate]);
         try (intros H; vm_compute in H; discriminate H)
       | try reflexivity;
         try (intros (db & [= <-] & H); exfalso; now apply (H _ _ eq_refl));
         try (intros (db & H & _); discriminate H) ] ]).
Qed.

(** * The workspace *)

(** X20. The source file and the binary of a request are two different
    paths, both under the directory of the request, so that the compiler
    never writes over the source it reads. *)
Theorem workspace_paths (workdir : str) :
  src_path workdir <> bin_path workdir
  /\ (exists t, src_path workdir = workdir ++ t)
  /\ (exists t, bin_path workdir = workdir ++ t).
Proof.
  unfold src_path, bin_path, path_join.
  destruct (rev workdir) as [|c l] eqn:E.
  - assert (workdir = []) as -> by (destruct workdir; [reflexivity|];
      apply (f_equal (@length ascii)) in E; rewrite length_rev in E; discriminate E).
    repeat split; [discriminate | now exists (txt "main.c") | now exists (txt "a.out")].
  - destruct (Ascii.eqb c "/"%char); repeat split;
      try (intros H; apply app_inv_head in H; discriminate H); eauto.
Qed.

(** * Lines that are and are not diagnostics *)

Lemma splitlines_go_part (s : str) :
  forall cur after_cr ln,
    In ln (splitlines_go cur after_cr s) ->
    exists pre post, cur ++ s = pre ++ ln ++ post.
Proof.
  induction s as [|c s IH]; intros cur after_cr ln H; cbn [splitlines_go] in H.
  - destruct cur as [|x cur]; [destruct H|]. destruct H as [<- | []].
    exists [], []. now rewrite !app_nil_r.
  - destruct (after_cr && Ascii.eqb c LF).
    + apply IH in H as (pre & post & E). cbn [app] in E.
      exists (cur ++ c :: pre), post. now rewrite E, <- app_assoc.
    + destruct (is_linebreak c).
      * destruct H as [<- | H]; [now exists [], (c :: s)|].
        apply IH in H as (pre & post & E). cbn [app] in E.
        exists (cur ++ c :: pre), post. now rewrite E, <- app_assoc.
      * apply IH in H as (pre & post & E). rewrite <- app_assoc in E.
        now exists pre, post.
Qed.

Lemma substr_part (n pre s post : str) :
  substr n s = true -> substr n (pre ++ s ++ post) = true.
Proof.
  rewrite !substr_spec. intros (a & b & ->). exists (pre ++ a), (b ++ post).
  now rewrite <- !app_assoc.
Qed.

(** X21. Only lines that name a warning or an error count: a stderr text
    in which neither [warning:] nor [error:] occurs gives no diagnostic,
    whatever else it holds (notes, source excerpts, linker output). *)
Theorem no_kind_no_diagnostics (stderr : str) :
  substr (txt "warning:") stderr = false ->
  substr (txt "error:") stderr = false ->
  parse_diagnostics stderr = [].
Proof.
  intros Hw He. rewrite parse_diagnostics_lines. apply flat_map_nil. intros ln Hln.
  pose proof (splitlines_dot _ _ Hln) as Hdot.
  apply splitlines_go_part in Hln as (pre & post & E). cbn [app] in E.
  destruct (@line_diags_cases ln Hdot)
    as [E0 | (f & line_no & col & k & msg & (w1 & w2 & El & _ & _ & _ & _ & Hk) & _)];
    [exact E0|].
  exfalso.
  assert (substr (k ++ txt ":") ln = true) as Hin.
  { apply substr_spec.
    exists (f ++ txt ":" ++ line_no ++ txt ":" ++ col ++ txt ":" ++ w1), (w2 ++ msg).
    rewrite El, <- ?app_assoc. reflexivity. }
  apply (@substr_part _ pre _ post) in Hin. rewrite <- E in Hin.
  destruct Hk as [-> | ->].
  - assert (substr (txt "warning:") stderr = true) by exact Hin. congruence.
  - assert (substr (txt "error:") stderr = true) by exact Hin. congruence.
Qed.

Lemma no_kind_no_diagnostics_witness :
  parse_diagnostics (txt "main.c:3:5: note: declared here") = [].
Proof.
  apply no_kind_no_diagnostics; reflexivity.
Defined.

Lemma splitlines_go_single (s : str) :
  forall cur,
    forallb (fun c => negb (is_linebreak c)) s = true ->
    cur ++ s <> [] ->
    splitlines_go cur false s = [cur ++ s].
Proof.
  induction s as [|c s IH]; intros cur Hs Hne; cbn [splitlines_go].
  - rewrite app_nil_r in *. destruct cur; [congruence | reflexivity].
  - cbn [forallb] in Hs. apply andb_true_iff in Hs as [Hc Hs].
    apply negb_true_iff in Hc. rewrite Hc. cbn [andb].
    rewrite (IH (cur ++ [c]) Hs); rewrite <- app_assoc; [reflexivity|].
    destruct cur; discriminate.
Qed.

Lemma app_longer_prefix {A : Type} (a b x y : list A) :
  a ++ x = b ++ y -> length a < length b ->
  exists z, b = a ++ z /\ x = z ++ y /\ z <> [].
Proof.
  revert b. induction a as [|c a IH]; intros [|d b] E Hl; simpl in Hl; try lia.
  - exists (d :: b). simpl in E. repeat split; [exact E | discriminate].
  - injection E as -> E. destruct (IH b E) as (z & -> & -> & Hz); [lia|].
    now exists z.
Qed.

(** X22. A line written the way the compiler writes one is read back
    field for field: for a file name that holds no colon, two numerals of
    at most 4300 digits each, a kind, and a message that starts with no
    white space, where file name and message hold no line boundary, the
    text [<file>:<line>:<column>: <kind>: <message>] is parsed with no
    exception and gives the one Diagnostic with this file, the numbers of
    the two numerals, this kind and this message. *)
Theorem formatted_diagnostic_reads_back (f line_no col k msg : str) :
  ~ In ":"%char f ->
  forallb (fun c => negb (is_linebreak c)) (f ++ msg) = true ->
  numeral line_no -> numeral col ->
  length line_no <= int_max_str_digits -> length col <= int_max_str_digits ->
  k = txt "warning" \/ k = txt "error" ->
  no_leading_blank msg ->
  parse_diagnostics_raising
    (f ++ txt ":" ++ line_no ++ txt ":" ++ col ++ txt ": " ++ k ++ txt ": " ++ msg)
  = Some [Build_Diag f (int_of_digits line_no) (int_of_digits col) k msg].
Proof.
  intros Hf Hlb Hn2 Hn3 Hb2 Hb3 Hk Hn.
  set (ln := f ++ txt ":" ++ line_no ++ txt ":" ++ col ++ txt ": " ++ k ++ txt ": " ++ msg).
  assert (forallb (fun c => negb (is_linebreak c)) ln = true) as Hln.
  { subst ln. rewrite forallb_app in Hlb. apply andb_true_iff in Hlb as [Hlf Hlm].
    assert (forall s, all_in Digit s = true ->
                      forallb (fun c => negb (is_linebreak c)) s = true) as Hdig.
    { intros s Hs. unfold all_in in Hs. rewrite forallb_forall in *. intros c Hc.
      specialize (Hs c Hc). cbn [in_cset] in Hs. unfold is_digit, is_linebreak, between in *.
      apply andb_true_iff in Hs as [H1 H2]. apply N.leb_le in H1, H2.
      assert (N.leb (code_point c) 13 = false) as -> by (apply N.leb_gt; lia).
      assert (N.leb (code_point c) 30 = false) as -> by (apply N.leb_gt; lia).
      assert (N.eqb (code_point c) 133 = false) as -> by (apply N.eqb_neq; lia).
      now rewrite !andb_false_r. }
    rewrite !forallb_app, Hlf, Hlm, (Hdig _ (proj2 Hn2)), (Hdig _ (proj2 Hn3)).
    destruct Hk as [-> | ->]; reflexivity. }
  assert (reads_as ln f line_no col k msg) as Hr
    by (exists (txt " "), (txt " "); split; [reflexivity|]; split; [exact Hn2|];
        split; [exact Hn3|]; now repeat split).
  assert (shortest_file ln f) as Hs.
  { intros f' line_no' col' k' msg' (w1 & w2 & E & _).
    destruct (Nat.le_gt_cases (length f) (length f')) as [Hle | Hlt]; [exact Hle|].
    exfalso. subst ln. symmetry in E.
    apply app_longer_prefix in E as (z & -> & E & Hz); [|exact Hlt].
    apply Hf. apply in_or_app. right.
    destruct z as [|c z]; [congruence|]. injection E as <- _. now left. }
  assert (splitlines ln = [ln]) as Hsplit.
  { apply (splitlines_go_single ln [] Hln). subst ln.
    destruct f; discriminate. }
  assert (all_in Dot ln = true) as Hdot
    by (apply (splitlines_dot ln); rewrite Hsplit; now left).
  assert (line_in_limit ln = true) as Hlim.
  { apply (@line_in_limit_read ln Hdot). intros f' line_no' col' k' msg' Hr' Hs'.
    assert (length f = length f') as Hl
      by (apply Nat.le_antisymm; [apply (Hs _ _ _ _ _ Hr') | apply (Hs' _ _ _ _ _ Hr)]).
    destruct (reading_numerals_unique Hr Hr' Hl) as [<- <-]. now split. }
  rewrite parse_diagnostics_raising_cases. unfold within_int_limit.
  rewrite Hsplit. cbn [forallb]. rewrite Hlim. cbn [andb]. f_equal.
  rewrite parse_diagnostics_lines, Hsplit. cbn [flat_map]. rewrite app_nil_r.
  destruct (@line_diags_read ln Hdot) as [Hread _].
  destruct Hread as (f0 & line_no0 & col0 & k0 & msg0 & Hr0 & Hs0 & Hn0 & ->);
    [now exists f, line_no, col, k, msg|].
  assert (length f = length f0) as Hl
    by (apply Nat.le_antisymm; [apply (Hs _ _ _ _ _ Hr0) | apply (Hs0 _ _ _ _ _ Hr)]).
  destruct (reading_unique Hr Hr0 Hl Hn Hn0) as (-> & -> & -> & -> & ->).
  reflexivity.
Qed.

Lemma formatted_diagnostic_reads_back_witness :
  parse_diagnostics_raising
    (txt "src/main.c" ++ txt ":" ++ txt "12" ++ txt ":" ++ txt "7" ++ txt ": "
     ++ txt "error" ++ txt ": " ++ txt "expected ';' before 'return'")
  = Some [Build_Diag (txt "src/main.c") (int_of_digits (txt "12")) (int_of_digits (txt "7"))
            (txt "error") (txt "expected ';' before 'return'")].
Proof.
  apply formatted_diagnostic_reads_back.
  - vm_compute. intros H. repeat destruct H as [H | H]; try discriminate H. exact H.
  - reflexivity.
  - split; [discriminate | reflexivity].
  - split; [discriminate | reflexivity].
  - apply Nat.leb_le. vm_compute. reflexivity.
  - apply Nat.leb_le. vm_compute. reflexivity.
  - now right.
  - reflexivity.
Defined.
